(** * gdal_warper: a shallow embedding of [gdal_warper.py]

    The script listens to Posttroll messages, runs [gdalwarp] (and optionally
    [gdaladdo]) on the file every message announces, and publishes a message
    for every file it has reprojected.

    Conventions of the embedding.
    - A Python [str] is a Rocq [string], read as its UTF-8 encoding; [bytes]
      is a list of bytes.
    - Python exceptions are values of [exn]; a computation that may raise
      returns a [res].
    - [datetime] values are integers counting microseconds, the resolution of
      [datetime.utcnow()].  A Python float is a binary64 number: the minutes
      that the loop computes are rounded as [SpecFloat] rounds them, and a
      finite float is held as the rational it equals.  The readings of
      [time.time()] are given as rationals.
    - Functions that talk to the operating system live in the monad [M],
      which threads a [World] and reads the behaviour of the host from an
      [OS] record. *)

From Stdlib Require Import ZArith QArith String Ascii List.
From Stdlib.Strings Require Import Byte.
From Stdlib.Floats Require Import SpecFloat.
From stdpp Require Import gmap strings list pretty.

Open Scope string_scope.
Open Scope list_scope.
Open Scope Z_scope.

(** ** Exceptions and results *)

Inductive exn : Type :=
| IndexError
| KeyError (key : string)
| TypeError
| UnboundLocalError (name : string)
| UnicodeDecodeError
| FileNotFoundError
| PermissionError
| MessageError.

#[global] Instance exn_eq_dec : EqDecision exn.
Proof. solve_decision. Defined.

Inductive res (A : Type) : Type :=
| Ok (a : A)
| Raise (e : exn).

Arguments Ok {A} a.
Arguments Raise {A} e.

Definition is_Ok {A} (r : res A) : bool :=
  match r with Ok _ => true | Raise _ => false end.

(** ** Strings *)

Module Str.

Definition slash : ascii := "/"%char.

(** [s.rfind(c)]: the highest index holding [c], or [-1]. *)
Fixpoint rfind_from (c : ascii) (s : string) (i last : Z) : Z :=
  match s with
  | EmptyString => last
  | String a r => rfind_from c r (i + 1) (if Ascii.eqb a c then i else last)
  end.

Definition rfind (c : ascii) (s : string) : Z := rfind_from c s 0 (-1).

(** [s[i:]] for [0 <= i]. *)
Fixpoint slice_from (i : nat) (s : string) : string :=
  match i, s with
  | O, _ => s
  | S _, EmptyString => EmptyString
  | S j, String _ r => slice_from j r
  end.

Definition startswith (c : ascii) (s : string) : bool :=
  match s with
  | String a _ => Ascii.eqb a c
  | EmptyString => false
  end.

Fixpoint endswith (c : ascii) (s : string) : bool :=
  match s with
  | EmptyString => false
  | String a EmptyString => Ascii.eqb a c
  | String _ r => endswith c r
  end.

(** [str.split()] cuts at the characters for which [str.isspace()] holds:
    U+0009 to U+000D, U+001C to U+0020, U+0085, U+00A0, U+1680, U+2000 to
    U+200A, U+2028, U+2029, U+202F, U+205F and U+3000.  In UTF-8 the first
    group takes one byte each, the next two characters two bytes, the others
    three; no byte of these encodings occurs inside the encoding of another
    character. *)

(** The white-space characters of one byte: tab, line feed, vertical tab,
    form feed, carriage return, the four separator controls and the space. *)
Definition isspace (c : ascii) : bool :=
  let n := N_of_ascii c in
  ((9 <=? n) && (n <=? 13) || (28 <=? n) && (n <=? 32))%N.

(** Whether the bytes [a; b] encode U+0085 or U+00A0. *)
Definition isspace2 (a b : ascii) : bool :=
  let m := N_of_ascii b in
  (N_of_ascii a =? 194)%N && ((m =? 133) || (m =? 160))%N.

(** Whether the bytes [a; b; c] encode U+1680, one of U+2000 to U+200A,
    U+2028, U+2029, U+202F, U+205F or U+3000. *)
Definition isspace3 (a b c : ascii) : bool :=
  let n := N_of_ascii a in
  let m := N_of_ascii b in
  let k := N_of_ascii c in
  ((n =? 225) && (m =? 154) && (k =? 128)
   || (n =? 226) && (m =? 128)
      && ((128 <=? k) && (k <=? 138) || (k =? 168) || (k =? 169) || (k =? 175))
   || (n =? 226) && (m =? 129) && (k =? 159)
   || (n =? 227) && (m =? 128) && (k =? 128))%N.

(** The number of bytes of the white-space character at the start of [s],
    and [0] when [s] does not start with one. *)
Definition space_len (s : string) : nat :=
  match s with
  | EmptyString => 0
  | String a r =>
      if isspace a then 1
      else
        match r with
        | EmptyString => 0
        | String b r' =>
            if isspace2 a b then 2
            else
              match r' with
              | EmptyString => 0
              | String c _ => if isspace3 a b c then 3 else 0
              end
        end
  end.

(** [s.split()]: [tok] is the token being read, and [skip] the number of
    bytes still to pass of the white-space character being read. *)
Fixpoint split_from (s tok : string) (skip : nat) : list string :=
  match s with
  | EmptyString => if String.eqb tok "" then [] else [tok]
  | String c r =>
      match skip with
      | S k => split_from r tok k
      | O =>
          match space_len s with
          | O => split_from r (tok +:+ String c "") 0
          | S k => if String.eqb tok "" then split_from r "" k else tok :: split_from r "" k
          end
      end
  end.

Definition split (s : string) : list string := split_from s "" 0.

(** [str(x)] for an integer. *)
Definition of_int (x : Z) : string := pretty x.

(** Rounding of a non-negative rational [n/d] to the nearest integer, ties
    to even. *)
Definition round_half_even (n : Z) (d : positive) : Z :=
  let t := n / Zpos d in
  let r := n mod Zpos d in
  if (2 * r <? Zpos d)%Z then t
  else if (Zpos d <? 2 * r)%Z then t + 1
  else if Z.even t then t else t + 1.

(** ["%.1f" % x] *)
Definition fmt_f1 (x : Q) : string :=
  let t := round_half_even (10 * Z.abs (Qnum x)) (Qden x) in
  (if (Qnum x <? 0)%Z then "-" else "")
    +:+ of_int (t / 10) +:+ "." +:+ of_int (t mod 10).

(** [b.decode('utf-8')].  A [str] is kept as its UTF-8 encoding, so that
    decoding checks that the bytes are well formed and keeps them. *)
Definition between (lo hi : N) (b : Byte.byte) : bool :=
  ((lo <=? Byte.to_N b) && (Byte.to_N b <=? hi))%N.

Definition cont (b : Byte.byte) : bool := between 128 191 b.

Fixpoint utf8_valid (bs : list Byte.byte) : bool :=
  match bs with
  | [] => true
  | b0 :: r0 =>
      if between 0 127 b0 then utf8_valid r0 else
      match r0 with
      | [] => false
      | b1 :: r1 =>
          if between 194 223 b0 then cont b1 && utf8_valid r1 else
          match r1 with
          | [] => false
          | b2 :: r2 =>
              if between 224 224 b0 then between 160 191 b1 && cont b2 && utf8_valid r2
              else if between 225 236 b0 then cont b1 && cont b2 && utf8_valid r2
              else if between 237 237 b0 then between 128 159 b1 && cont b2 && utf8_valid r2
              else if between 238 239 b0 then cont b1 && cont b2 && utf8_valid r2
              else
              match r2 with
              | [] => false
              | b3 :: r3 =>
                  if between 240 240 b0
                  then between 144 191 b1 && cont b2 && cont b3 && utf8_valid r3
                  else if between 241 243 b0
                  then cont b1 && cont b2 && cont b3 && utf8_valid r3
                  else if between 244 244 b0
                  then between 128 143 b1 && cont b2 && cont b3 && utf8_valid r3
                  else false
              end
          end
      end
  end.

Definition decode_utf8 (bs : list Byte.byte) : res string :=
  if utf8_valid bs then Ok (string_of_list_byte bs) else Raise UnicodeDecodeError.

End Str.

(** ** Paths ([posixpath]) *)

Module Path.

(** [os.path.basename(p)]: [i = p.rfind('/') + 1; return p[i:]] *)
Definition basename (p : string) : string :=
  let i := Str.rfind Str.slash p + 1 in
  Str.slice_from (Z.to_nat i) p.

(** [os.path.join(a, b)] *)
Definition join (a b : string) : string :=
  if Str.startswith Str.slash b then b
  else if String.eqb a "" || Str.endswith Str.slash a then a +:+ b
  else a +:+ "/" +:+ b.

End Path.

(** ** Data *)

(** Values found in a message payload. *)
Inductive PyVal : Type :=
| PStr (s : string)
| PInt (z : Z)
| PNone.

(** A posttroll [Message(subject, atype, data)]; [D] is how the payload is
    held: a reference into the heap inside a worker, the dictionary itself
    once the message has been pickled. *)
Record Message (D : Type) : Type := mkMessage {
  subject : string;
  atype : string;
  data : D;
}.

Arguments mkMessage {D} _ _ _.
Arguments subject {D} _.
Arguments atype {D} _.
Arguments data {D} _.

(** [Message(subject, atype, data)]: the constructor of posttroll checks what
    it is given and raises [MessageError] for a subject or a type that is the
    empty string.  (It also wants the payload to be serialisable, which the
    values of [PyVal] are, and a sender, which it makes up itself.) *)
Definition Message_init {D} (subject atype : string) (data : D) : res (Message D) :=
  if String.eqb subject "" || String.eqb atype "" then Raise MessageError
  else Ok (mkMessage subject atype data).

(** The value of one [gdalwarp] option in the configuration: a list of
    strings, or one string. *)
Inductive OptVal : Type :=
| OList (items : list string)
| OStr (s : string).

(** A [dict] whose iteration order matters: the items in insertion order,
    no key occurring twice ([wf]). *)
Module ODict.

Definition t (V : Type) : Type := list (string * V).

Definition keys {V} (d : t V) : list string := map fst d.

(** [d[k]] *)
Fixpoint getitem {V} (d : t V) (k : string) : res V :=
  match d with
  | [] => Raise (KeyError k)
  | (k', v) :: d' => if String.eqb k k' then Ok v else getitem d' k
  end.

(** No key occurs twice. *)
Definition wf {V} (d : t V) : Prop := NoDup (keys d).

End ODict.

(** The configuration, one dictionary in the script, by the entries the
    functions below read: [target_dir] and [target_projection] are read with
    [config[...]], [overviews] and [restart_timeout] with [config.get(...)],
    and [None] stands for a key that is not there.  [projections] holds the
    other entries, those whose values are mappings of options: the
    projections, of which [config[config["target_projection"]]] is meant to
    pick one.  The fields have the types the functions expect: a file with a
    value of another type (an option that is neither a list of strings nor a
    string, a timeout that is not a number, a null) is outside the model, and
    so is a [target_projection] that names an entry only [main] reads
    ([num_workers], [log_config]). *)
Record Config : Type := mkConfig {
  target_dir : string;
  target_projection : string;
  projections : ODict.t (ODict.t OptVal);
  overviews : option (list Z);
  restart_timeout : option Q;
}.

(** What [config[key]] can be. *)
Inductive Entry : Type :=
| EStr (s : string)
| EInts (l : list Z)
| ENum (x : Q)
| EOpts (opts : ODict.t OptVal).

(** [config[key]]: the script indexes the one dictionary, so that a key of
    one of the other entries is found as well as the name of a projection.  A
    dictionary holds a key once: no projection is named as another entry
    is. *)
Definition config_getitem (config : Config) (key : string) : res Entry :=
  match ODict.getitem (projections config) key with
  | Ok opts => Ok (EOpts opts)
  | Raise _ =>
      if String.eqb key "target_dir" then Ok (EStr (target_dir config))
      else if String.eqb key "target_projection" then Ok (EStr (target_projection config))
      else if String.eqb key "overviews"
      then match overviews config with
           | Some l => Ok (EInts l)
           | None => Raise (KeyError key)
           end
      else if String.eqb key "restart_timeout"
      then match restart_timeout config with
           | Some x => Ok (ENum x)
           | None => Raise (KeyError key)
           end
      else Raise (KeyError key)
  end.

(** The arguments handed to [pool.apply_async]. *)
Record Task : Type := mkTask {
  task_config : Config;
  task_data : gmap string PyVal;
  task_topic : string;
}.

(** What the pool gives to the callback: the value [(msg_data, pub_msg)]
    returned by the worker, as unpickled in the main process. *)
Definition Result : Type :=
  (gmap string PyVal * option (Message (gmap string PyVal)))%type.

(** ** Effects

    A computation reads an environment [E], threads a state [S], and either
    yields a value or raises; the state reached when it raises is kept. *)

Definition Eff (E S A : Type) : Type := E -> S -> res A * S.

Section Eff.
Context {E S : Type}.

Definition ret {A} (a : A) : Eff E S A := fun _ s => (Ok a, s).

Definition raise {A} (e : exn) : Eff E S A := fun _ s => (Raise e, s).

Definition bind {A B} (m : Eff E S A) (k : A -> Eff E S B) : Eff E S B :=
  fun env s =>
    match m env s with
    | (Ok a, s') => k a env s'
    | (Raise e, s') => (Raise e, s')
    end.

Definition lift {A} (r : res A) : Eff E S A := fun _ s => (r, s).

Definition ask : Eff E S E := fun env s => (Ok env, s).

Definition get : Eff E S S := fun _ s => (Ok s, s).

Definition modify (f : S -> S) : Eff E S unit := fun _ s => (Ok tt, f s).

End Eff.

Notation "'let*' x := m 'in' k" := (bind m (fun x => k))
  (at level 10, x binder, m at level 200, k at level 200).

(** [try: body / except FileNotFoundError: ...]: [None] when the handler is
    entered. *)
Definition try_except_FileNotFoundError {E S A} (body : Eff E S A)
    : Eff E S (option A) :=
  fun env s =>
    match body env s with
    | (Ok a, s') => (Ok (Some a), s')
    | (Raise e, s') =>
        if decide (e = FileNotFoundError) then (Ok None, s') else (Raise e, s')
    end.

(** [l[i]] on a list *)
Definition list_getitem {A} (l : list A) (i : nat) : res A :=
  match l !! i with
  | Some a => Ok a
  | None => Raise IndexError
  end.

(** ** The host of a worker process *)

Inductive Level : Type := DEBUG | INFO | ERROR.

(** An argument of a logging call. *)
Inductive Arg : Type :=
| AStr (s : string)
| AVal (v : PyVal)
| AFloat (x : Q)
| AMsg (m : Message (gmap string PyVal)).

(** What a process does: the commands it runs, its logging calls, the
    messages it sends with [pub.send], the tasks it hands to
    [pool.apply_async] and the results it takes with [results.pop(0)]. *)
Inductive Event : Type :=
| Run (cmd : list string)
| Log (logger : string) (level : Level) (fmt : string) (args : list Arg)
| Send (m : Message (gmap string PyVal))
| Submit (task : Task)
| Pop (r : Result).

(** [subprocess.CompletedProcess] *)
Record CompletedProcess : Type := mkCompleted {
  returncode : Z;
  stderr : list Byte.byte;
}.

(** What the host does with a command: it either runs it to completion or
    [subprocess.run] raises; and what [time.time()] reads at its n-th call. *)
Record OS : Type := mkOS {
  os_run : list string -> res CompletedProcess;
  os_time : nat -> Q;
}.

Record World : Type := mkWorld {
  heap : list (gmap string PyVal);
  trace : list Event;
  time_reads : nat;
}.

Definition M : Type -> Type := Eff OS World.

Definition emit (ev : Event) : M unit :=
  modify (fun w => mkWorld (heap w) (trace w ++ [ev]) (time_reads w)).

(** [logging.getLogger(name).<level>(fmt, *args)] *)
Definition log (name : string) (lvl : Level) (fmt : string) (args : list Arg) : M unit :=
  emit (Log name lvl fmt args).

(** [time.time()] *)
Definition time_time : M Q :=
  let* os := ask in
  let* w := get in
  let* _ := modify (fun w => mkWorld (heap w) (trace w) (S (time_reads w))) in
  ret (os_time os (time_reads w)).

(** [subprocess.run(cmd, stdout=PIPE, stderr=PIPE)]: an empty argument list
    has no [args[0]] to execute. *)
Definition subprocess_run (cmd : list string) : M CompletedProcess :=
  match cmd with
  | [] => raise IndexError
  | _ :: _ =>
      let* _ := emit (Run cmd) in
      let* os := ask in
      lift (os_run os cmd)
  end.

(** Dictionaries live in the heap: a reference is an index. *)
Definition deref (h : list (gmap string PyVal)) (l : nat) : gmap string PyVal :=
  default ∅ (h !! l).

(** [d.copy()] *)
Definition dict_copy (l : nat) : M nat :=
  let* w := get in
  let* _ := modify (fun w => mkWorld (heap w ++ [deref (heap w) l]) (trace w) (time_reads w)) in
  ret (length (heap w)).

(** [d[k]] *)
Definition dict_getitem (l : nat) (k : string) : M PyVal :=
  let* w := get in
  match deref (heap w) l !! k with
  | Some v => ret v
  | None => raise (KeyError k)
  end.

(** [d[k] = v] *)
Definition dict_setitem (l : nat) (k : string) (v : PyVal) : M unit :=
  modify (fun w =>
    mkWorld (<[l := <[k := v]> (deref (heap w) l)]> (heap w)) (trace w) (time_reads w)).

(** A path argument must be a [str]. *)
Definition as_path (v : PyVal) : res string :=
  match v with
  | PStr s => Ok s
  | _ => Raise TypeError
  end.

(** ** gdal_warper.py: the work done for one message *)

(** [for itm in config[opt]: opts += ['-' + opt, itm]] *)
Fixpoint warp_list_opts (opt : string) (items opts : list string) : list string :=
  match items with
  | [] => opts
  | itm :: rest => warp_list_opts opt rest (opts ++ ["-" +:+ opt; itm])
  end.

(** [for opt in config: ...], [cmd] being the command built so far. *)
Fixpoint warp_opts_loop (config : ODict.t OptVal) (opts : list string)
    (cmd : list string) : res (list string) :=
  match opts with
  | [] => Ok cmd
  | opt :: rest =>
      match ODict.getitem config opt with
      | Raise e => Raise e
      | Ok (OList items) =>
          warp_opts_loop config rest (cmd ++ warp_list_opts opt items [])
      | Ok (OStr s) =>
          warp_opts_loop config rest (cmd ++ (["-" +:+ opt] ++ Str.split s))
      end
  end.

(** [_get_warp_command] is written for a mapping of options.  Given another
    entry, its loop [for opt in config: ... config[opt] ...] does this: over
    an empty string or an empty list it has nothing to do, as over an empty
    mapping; a character cannot index the string it comes from
    ([TypeError]); an integer of a list indexes the list, where it finds an
    integer when it is in range, so that ['-' + opt] fails ([TypeError]), and
    fails when it is not ([IndexError]); a number cannot be iterated over
    ([TypeError]). *)
Definition as_options (entry : Entry) : res (ODict.t OptVal) :=
  match entry with
  | EOpts opts => Ok opts
  | EStr EmptyString => Ok []
  | EStr (String _ _) => Raise TypeError
  | EInts [] => Ok []
  | EInts (n :: l) =>
      let len := Z.of_nat (length (n :: l)) in
      if (- len <=? n) && (n <? len) then Raise TypeError else Raise IndexError
  | ENum _ => Raise TypeError
  end.

Definition _get_warp_command (config : ODict.t OptVal) (fname_in fname_out : string)
    : res (list string) :=
  match warp_opts_loop config (ODict.keys config) ["gdalwarp"] with
  | Raise e => Raise e
  | Ok cmd => Ok (cmd ++ [fname_in; fname_out])
  end.

Definition _run_cmd (cmd : list string) : M (bool * string) :=
  let* tic := time_time in
  let* attempt := try_except_FileNotFoundError (subprocess_run cmd) in
  match attempt with
  | None =>
      let* prog := lift (list_getitem cmd 0) in
      ret (false, "Command '" +:+ prog +:+ "' not found")
  | Some process =>
      let* toc := time_time in
      let elapsed := (toc - tic)%Q in
      if negb (Z.eqb (returncode process) 0)
      then let* text := lift (Str.decode_utf8 (stderr process)) in ret (false, text)
      else ret (true, "File reprojected in " +:+ Str.fmt_f1 elapsed +:+ " seconds.")
  end.

Definition warp (fname_in target_dir : string) (config : ODict.t OptVal)
    : M (option string) :=
  let fname := Path.basename fname_in in
  let fname_out := Path.join target_dir fname in
  let* cmd := lift (_get_warp_command config fname_in fname_out) in
  let* _ := log "warp" DEBUG "Running gdalwarp for '%s'" [AStr fname] in
  let* '(success, msg) := _run_cmd cmd in
  if success : bool
  then let* _ := log "warp" DEBUG msg [] in ret (Some fname_out)
  else let* _ := log "warp" ERROR msg [] in ret None.

(** [not overviews] *)
Definition overviews_falsy (overviews : option (list Z)) : bool :=
  match overviews with
  | None => true
  | Some [] => true
  | Some (_ :: _) => false
  end.

Definition add_overviews (fname : string) (overviews : option (list Z)) : M bool :=
  if overviews_falsy overviews
  then let* _ := log "overviews" DEBUG "No overviews configured" [] in ret true
  else
    let cmd := ["gdaladdo"; fname] ++ map Str.of_int (default [] overviews) in
    let* '(success, msg) := _run_cmd cmd in
    if success : bool
    then let* _ := log "overviews" INFO msg [] in ret true
    else let* _ := log "overviews" ERROR msg [] in ret false.

(** The arguments of [warp] are evaluated first, from the left; the path is
    used next ([os.path.basename], line 68), and the entry of the
    configuration after it ([_get_warp_command], line 71). *)
Definition _process_message (config : Config) (msg_data : nat) (pub_topic : string)
    : M (option (Message nat)) :=
  let overviews := overviews config in
  let* meta := dict_copy msg_data in
  let* uri := dict_getitem meta "uri" in
  let* entry := lift (config_getitem config (target_projection config)) in
  let* fname_in := lift (as_path uri) in
  let* opts := lift (as_options entry) in
  let* new_uri := warp fname_in (target_dir config) opts in
  match new_uri with
  | None => ret None
  | Some new_uri =>
      let* done := add_overviews new_uri overviews in
      if negb done then ret None
      else
        let* _ := dict_setitem meta "uri" (PStr new_uri) in
        let* _ := dict_setitem meta "uid" (PStr (Path.basename new_uri)) in
        let* pub_msg := lift (Message_init pub_topic "file" meta) in
        ret (Some pub_msg)
  end.

Definition _process_message_worker (config : Config) (msg_data : nat)
    (pub_topic : string) : M (nat * option (Message nat)) :=
  let* pub_msg := _process_message config msg_data pub_topic in
  ret (msg_data, pub_msg).

(** ** The pool *)

Definition pickle (h : list (gmap string PyVal)) (m : Message nat)
    : Message (gmap string PyVal) :=
  mkMessage (subject m) (atype m) (deref h (data m)).

(** A worker process runs [_process_message_worker] on its own copy of the
    arguments and sends back the value returned, when there is one. *)
Definition worker_run (os : OS) (task : Task) : res Result * World :=
  let w0 := mkWorld [task_data task] [] 0 in
  match _process_message_worker (task_config task) 0%nat (task_topic task) os w0 with
  | (Ok (l, pub_msg), w) => (Ok (deref (heap w) l, option_map (pickle (heap w)) pub_msg), w)
  | (Raise e, w) => (Raise e, w)
  end.

(** ** gdal_warper.py: the loop *)

Inductive Signal : Type := SIGTERM.

(** The variables of [_warper_loop], the tasks the pool has not finished and
    what the process has done so far.  [time_since_last_msg] is [None] as
    long as the variable has not been assigned. *)
Record Loop : Type := mkLoop {
  keep_looping : bool;
  latest_message_time : Z;
  results : list Result;
  queued_images : Z;
  time_since_last_msg : option Q;
  pool : list Task;
  events : list Event;
}.

Definition set_keep_looping (b : bool) (s : Loop) : Loop :=
  mkLoop b (latest_message_time s) (results s) (queued_images s)
    (time_since_last_msg s) (pool s) (events s).

Definition set_latest_message_time (t : Z) (s : Loop) : Loop :=
  mkLoop (keep_looping s) t (results s) (queued_images s)
    (time_since_last_msg s) (pool s) (events s).

Definition set_results (rs : list Result) (s : Loop) : Loop :=
  mkLoop (keep_looping s) (latest_message_time s) rs (queued_images s)
    (time_since_last_msg s) (pool s) (events s).

Definition set_queued_images (n : Z) (s : Loop) : Loop :=
  mkLoop (keep_looping s) (latest_message_time s) (results s) n
    (time_since_last_msg s) (pool s) (events s).

Definition set_time_since_last_msg (x : Q) (s : Loop) : Loop :=
  mkLoop (keep_looping s) (latest_message_time s) (results s) (queued_images s)
    (Some x) (pool s) (events s).

Definition set_pool (p : list Task) (s : Loop) : Loop :=
  mkLoop (keep_looping s) (latest_message_time s) (results s) (queued_images s)
    (time_since_last_msg s) p (events s).

Definition add_event (ev : Event) (s : Loop) : Loop :=
  mkLoop (keep_looping s) (latest_message_time s) (results s) (queued_images s)
    (time_since_last_msg s) (pool s) (events s ++ [ev]).

(** What happens around one iteration of [for msg in sub.recv(1)].
    - [sigterm]: SIGTERM is handled in this iteration before it tests
      [keep_looping] (or, in the first iteration of a call, after the call
      has installed its handler).
    - [finished]: the tasks the pool has finished since the previous
      iteration (position among the unfinished ones, host of the worker).
    - [msg]: the value yielded by the subscriber.
    - [now_check], [now_recv]: the two readings of [datetime.utcnow()].
    - [sigterm_late]: SIGTERM is handled after this iteration has tested
      [keep_looping] and before the next test: later in the iteration or,
      when the iteration returns, before the next call of the loop has
      installed its own handler.  The handler that runs is then still the
      closure of the call this iteration belongs to. *)
Record Tick : Type := mkTick {
  sigterm : bool;
  finished : list (nat * OS);
  msg : option (Message (gmap string PyVal));
  now_check : Z;
  now_recv : Z;
  sigterm_late : bool;
}.

Definition L : Type -> Type := Eff Tick Loop.

Definition loop_log (lvl : Level) (fmt : string) (args : list Arg) : L unit :=
  modify (add_event (Log "warper_loop" lvl fmt args)).

Definition _signal_handler : L unit :=
  let* _ := loop_log INFO "Caught SIGTERM, stop receiving new messages." [] in
  modify (set_keep_looping false).

(** The pool finishes the task at position [f.1]: [callback=results.append]
    is called with the value returned; nothing is called when the worker
    raised. *)
Definition pool_finish (f : nat * OS) : L unit :=
  let* s := get in
  match pool s !! fst f with
  | None => ret tt
  | Some task =>
      let* _ := modify (set_pool (delete (fst f) (pool s))) in
      match fst (worker_run (snd f) task) with
      | Ok r => modify (fun s => set_results (results s ++ [r]) s)
      | Raise _ => ret tt
      end
  end.

Fixpoint for_each {A} (f : A -> L unit) (l : list A) : L unit :=
  match l with
  | [] => ret tt
  | a :: l' => let* _ := f a in for_each f l'
  end.

(** What the signal handler and the pool's callbacks have done when an
    iteration tests its variables: a SIGTERM handled before the test of
    [keep_looping], and the results appended before the drain ends.  A
    SIGTERM handled after the test is [late_signal]'s. *)
Definition deliver : L unit :=
  let* t := ask in
  let* _ := if sigterm t then _signal_handler else ret tt in
  for_each pool_finish (finished t).

(** [d[k]] on a payload *)
Definition getitem (d : gmap string PyVal) (k : string) : res PyVal :=
  match d !! k with
  | Some v => Ok v
  | None => Raise (KeyError k)
  end.

Definition _publish_message (msg_data : gmap string PyVal)
    (pub_msg : option (Message (gmap string PyVal))) : L unit :=
  match pub_msg with
  | None => ret tt
  | Some m =>
      let* _ := modify (add_event (Log "warp_process_message" DEBUG "Publishing %s" [AMsg m])) in
      let* _ := modify (add_event (Send m)) in
      let* src := lift (getitem msg_data "uri") in
      let* dst := lift (getitem (data m) "uri") in
      modify (add_event (Log "warp_process_message" INFO "Warped %s to %s" [AVal src; AVal dst]))
  end.

(** [while results: ...]; [n] bounds the number of iterations. *)
Fixpoint while_results (n : nat) : L unit :=
  match n with
  | O => ret tt
  | S n' =>
      let* s := get in
      match results s with
      | [] => ret tt
      | (msg_data, pub_msg) :: rest =>
          let* _ := modify (set_results rest) in
          let* _ := modify (add_event (Pop (msg_data, pub_msg))) in
          let* _ := _publish_message msg_data pub_msg in
          let* _ := modify (fun s => set_queued_images (queued_images s - 1) s) in
          while_results n'
      end
  end.

(** The drain of an iteration: every result in the buffer takes one turn of
    the [while]. *)
Definition drain : L unit :=
  let* s := get in
  while_results (length (results s)).

(** [if restart_timeout:] *)
Definition truthy (restart_timeout : option Q) : bool :=
  match restart_timeout with
  | Some x => negb (Qeq_bool x 0)
  | None => false
  end.

(** Python floats: binary64, every operation rounded to the nearest float,
    ties to even. *)
Module Float.

Definition prec : Z := 53.
Definition emax : Z := 1024.

(** An integer as an operand of a division.  The division rounds once, the
    exact quotient, as [int / int] does in Python; for the divisor [60.] the
    integer is the float. *)
Definition of_Z (z : Z) : spec_float :=
  match z with
  | Z0 => S754_zero false
  | Zpos p => S754_finite false p 0
  | Zneg p => S754_finite true p 0
  end.

Definition div (x y : spec_float) : spec_float := SFdiv prec emax x y.

(** The rational that a finite float equals.  The quotients taken below are
    finite: two [datetime] values are less than [2^59] microseconds apart. *)
Definition to_Q (x : spec_float) : Q :=
  match x with
  | S754_finite s m e =>
      let v :=
        if 0 <=? e then inject_Z (Zpos m * 2 ^ e)
        else Qred (Zpos m # Pos.pow 2 (Z.to_pos (- e))) in
      if s then (- v)%Q else v
  | _ => 0%Q
  end.

End Float.

(** [(now - latest).total_seconds() / 60.]: [total_seconds()] is the number
    of microseconds divided by [10**6]. *)
Definition minutes_between (now latest : Z) : Q :=
  Float.to_Q
    (Float.div (Float.div (Float.of_Z (now - latest)) (Float.of_Z 1000000))
       (Float.of_Z 60)).

(** Reading a local variable. *)
Definition local {A} (name : string) (v : option A) : res A :=
  match v with
  | Some a => Ok a
  | None => Raise (UnboundLocalError name)
  end.

(** [x > y] for a float [x] and a configured value [y]. *)
Definition float_gt (x : Q) (y : option Q) : res bool :=
  match y with
  | Some y => Ok (negb (Qle_bool x y))
  | None => Raise TypeError
  end.

Inductive Flow : Type :=
| Continue
| Return (v : option Signal).

(** [pool.apply_async(_process_message_worker, args=..., callback=results.append)] *)
Definition apply_async (task : Task) : L unit :=
  let* _ := modify (add_event (Submit task)) in
  modify (fun s => set_pool (pool s ++ [task]) s).

(** [if restart_timeout: time_since_last_msg = ...] *)
Definition measure_idle (restart_timeout : option Q) : L unit :=
  if truthy restart_timeout
  then
    let* t := ask in
    modify (fun s =>
      set_time_since_last_msg (minutes_between (now_check t) (latest_message_time s)) s)
  else ret tt.

(** [if queued_images == 0: ...]: [Continue] when neither [return] is
    taken. *)
Definition check_idle (restart_timeout : option Q) : L Flow :=
  let* s := get in
  if queued_images s =? 0
  then
    if negb (keep_looping s) then ret (Return (Some SIGTERM))
    else
      let* since := lift (local "time_since_last_msg" (time_since_last_msg s)) in
      let* late := lift (float_gt since restart_timeout) in
      if late : bool
      then
        let* _ := loop_log DEBUG "%.0f minutes since last message" [AFloat since] in
        ret (Return None)
      else ret Continue
  else ret Continue.

(** [if msg is None: continue] and the lines after it. *)
Definition dispatch (config : Config) (pub_topic : string) : L Flow :=
  let* t := ask in
  match msg t with
  | None => ret Continue
  | Some m =>
      let* _ := loop_log DEBUG "New message received: %s" [AMsg m] in
      let* _ := modify (set_latest_message_time (now_recv t)) in
      let* _ := apply_async (mkTask config (data m) pub_topic) in
      let* _ := modify (fun s => set_queued_images (queued_images s + 1) s) in
      ret Continue
  end.

(** The body of [for msg in sub.recv(1)]. *)
Definition loop_body (config : Config) (pub_topic : string) : L Flow :=
  let restart_timeout := restart_timeout config in
  let* _ := drain in
  let* _ := measure_idle restart_timeout in
  let* flow := check_idle restart_timeout in
  match flow with
  | Return v => ret (Return v)
  | Continue => dispatch config pub_topic
  end.

Definition iteration (config : Config) (pub_topic : string) : L Flow :=
  let* _ := deliver in
  loop_body config pub_topic.

(** The handler of the call runs for a SIGTERM that comes after the test of
    [keep_looping]: the variable it sets is not read again in this
    iteration, so that only its place in the trace depends on the moment. *)
Definition late_signal : L unit :=
  let* t := ask in
  if sigterm_late t then _signal_handler else ret tt.

(** How a call of [_warper_loop] stands once the iterations given have been
    made. *)
Inductive Outcome : Type :=
| Running (s : Loop)
| Returned (v : option Signal) (s : Loop)
| Raised (e : exn) (s : Loop).

Fixpoint for_recv (config : Config) (pub_topic : string) (ticks : list Tick)
    (s : Loop) : Outcome :=
  match ticks with
  | [] => Running s
  | t :: rest =>
      match iteration config pub_topic t s with
      | (Ok Continue, s') => for_recv config pub_topic rest (snd (late_signal t s'))
      | (Ok (Return v), s') => Returned v (snd (late_signal t s'))
      | (Raise e, s') => Raised e s'
      end
  end.

(** What one call of [_warper_loop] meets: the clock when it starts, then
    its iterations.  Each call starts with [keep_looping = True] and installs
    a handler of its own ([signal.signal], line 117): what the handler of an
    earlier call has set is a variable of that call. *)
Record Feed : Type := mkFeed {
  start_now : Z;
  ticks : list Tick;
}.

Definition loop_init (now : Z) (workers : list Task) (pub : list Event) : Loop :=
  mkLoop true now [] 0 None workers pub.

Definition _warper_loop (config : Config) (pub : list Event) (pub_topic : string)
    (workers : list Task) (feed : Feed) : Outcome :=
  for_recv config pub_topic (ticks feed) (loop_init (start_now feed) workers pub).

(** ** gdal_warper.py: [main] *)

Inductive MainOutcome : Type :=
| MainRunning (s : Loop)
| MainStopped (pub : list Event)
| MainRaised (e : exn) (pub : list Event)
| MainStarting (pub : list Event) (pool : list Task).

(** [while True: ret = _warper_loop(...); if ret == signal.SIGTERM: break];
    [pub] is what the process has done so far and [workers] what the pool
    has not finished.  The feeds tell what happens once the first call of the
    loop has installed its handler: before that, SIGTERM has its default
    action and ends the process. *)
Fixpoint main_loop (config : Config) (pub_topic : string) (feeds : list Feed)
    (pub : list Event) (workers : list Task) : MainOutcome :=
  match feeds with
  | [] => MainStarting pub workers
  | feed :: rest =>
      let pub := pub ++ [Log "gdal_warper" DEBUG "Starting warper loop." []] in
      match _warper_loop config pub pub_topic workers feed with
      | Running s => MainRunning s
      | Raised e s => MainRaised e (events s)
      | Returned (Some SIGTERM) s =>
          MainStopped (events s ++ [Log "gdal_warper" INFO "GDAL warper stopped." []])
      | Returned None s => main_loop config pub_topic rest (events s) (pool s)
      end
  end.

Definition main (config : Config) (pub_topic : string) (feeds : list Feed)
    : MainOutcome :=
  main_loop config pub_topic feeds [Log "gdal_warper" INFO "GDAL warper started." []] [].

(** * The vocabulary of the properties *)

(** ** Reading traces *)

(** The commands run, in order. *)
Definition commands (tr : list Event) : list (list string) :=
  omap (fun ev => match ev with Run cmd => Some cmd | _ => None end) tr.

(** The messages sent, in order. *)
Definition sends (tr : list Event) : list (Message (gmap string PyVal)) :=
  omap (fun ev => match ev with Send m => Some m | _ => None end) tr.

(** The results taken from the buffer, in order. *)
Definition pops (tr : list Event) : list Result :=
  omap (fun ev => match ev with Pop r => Some r | _ => None end) tr.

(** The tasks handed to the pool, in order. *)
Definition submits (tr : list Event) : list Task :=
  omap (fun ev => match ev with Submit task => Some task | _ => None end) tr.

(** ** The reprojection command *)

(** The command in the words of the specification: an option holding a list
    gives one [-option value] pair per element, an option holding a string
    gives [-option] followed by the tokens of the string. *)
Definition option_args (opt : string) (v : OptVal) : list string :=
  match v with
  | OList items => flat_map (fun itm => ["-" +:+ opt; itm]) items
  | OStr s => ("-" +:+ opt) :: Str.split s
  end.

Definition spec_warp_command (config : ODict.t OptVal) (fname_in target_dir : string)
    : list string :=
  "gdalwarp"
    :: flat_map (fun kv => option_args (fst kv) (snd kv)) config
    ++ [fname_in; Path.join target_dir (Path.basename fname_in)].

(** ** The command runner *)

Ltac unfold_eff :=
  unfold bind, ret, raise, lift, ask, get, modify, try_except_FileNotFoundError.

(** The world once [cmd] has been started and the clock read [n] times. *)
Definition started (cmd : list string) (n : nat) (w : World) : World :=
  mkWorld (heap w) (trace w ++ [Run cmd]) (n + time_reads w).

(** The seconds measured around the command. *)
Definition elapsed_in (os : OS) (w : World) : Q :=
  (os_time os (S (time_reads w)) - os_time os (time_reads w))%Q.

(** Whether the command, once started, ends with exit status 0. *)
Definition exits_zero (os : OS) (cmd : list string) : bool :=
  match os_run os cmd with
  | Ok p => Z.eqb (returncode p) 0
  | Raise _ => false
  end.

(** ** [warp] and [add_overviews] *)

Ltac solve_wf := unfold ODict.wf; apply (bool_decide_unpack _); vm_compute; exact I.

(** The world after one logging call. *)
Definition logged (name : string) (lvl : Level) (fmt : string) (args : list Arg)
    (w : World) : World :=
  mkWorld (heap w) (trace w ++ [Log name lvl fmt args]) (time_reads w).

(** The command that adds the overviews. *)
Definition overviews_command (fname : string) (overviews : option (list Z)) : list string :=
  "gdaladdo" :: fname :: map Str.of_int (default [] overviews).

(** Whether the overview step succeeds on this host. *)
Definition overviews_ok (os : OS) (fname : string) (overviews : option (list Z)) : bool :=
  overviews_falsy overviews || exits_zero os (overviews_command fname overviews).

(** Whether the reprojection step succeeds on this host. *)
Definition warp_ok (os : OS) (config : ODict.t OptVal) (fname_in target_dir : string)
    : bool :=
  exits_zero os (spec_warp_command config fname_in target_dir).

(** ** [_process_message] *)

(** The world once the payload at [l] has been copied. *)
Definition copied (l : nat) (w : World) : World :=
  mkWorld (heap w ++ [deref (heap w) l]) (trace w) (time_reads w).

(** The world once [meta['uri']] and [meta['uid']] have been assigned. *)
Definition assigned (meta : nat) (new_uri : string) (w : World) : World :=
  let h := <[meta := <["uri" := PStr new_uri]> (deref (heap w) meta)]> (heap w) in
  mkWorld (<[meta := <["uid" := PStr (Path.basename new_uri)]> (deref h meta)]> h)
    (trace w) (time_reads w).

(** No SIGTERM comes while the call of the loop is made. *)
Definition unsignalled (feed : Feed) : Prop :=
  Forall (fun t => sigterm t = false /\ sigterm_late t = false) (ticks feed).

(** The line the handler logs. *)
Definition caught : Event :=
  Log "warper_loop" INFO "Caught SIGTERM, stop receiving new messages." [].

(** What the last line of [_process_message] returns or raises, the payload
    being the dictionary at [l]. *)
Definition message_for (topic : string) (l : nat) : res (option (Message nat)) :=
  match Message_init topic "file" l with
  | Ok m => Ok (Some m)
  | Raise e => Raise e
  end.

(** The configuration with [overviews] set. *)
Definition with_overviews (overviews : option (list Z)) (config : Config) : Config :=
  mkConfig (target_dir config) (target_projection config) (projections config)
    overviews (restart_timeout config).

(** ** What the pool hands back *)

(** A result that [_publish_message] can log. *)
Definition result_ok (r : Result) : Prop :=
  match snd r with
  | Some m => is_Some (fst r !! "uri") /\ is_Some (data m !! "uri")
  | None => True
  end.

(** ** The loop: the environment *)

(** What is kept when the signal handler and the pool's callbacks run. *)
Record env_step (s s' : Loop) : Prop := mk_env_step {
  env_latest : latest_message_time s' = latest_message_time s;
  env_queued : queued_images s' = queued_images s;
  env_since : time_since_last_msg s' = time_since_last_msg s;
  env_submits : submits (events s') = submits (events s);
  env_pops : pops (events s') = pops (events s);
  env_sends : sends (events s') = sends (events s);
  env_size : (length (pool s') + length (results s') <= length (pool s) + length (results s))%nat;
  env_ok : Forall result_ok (results s) -> Forall result_ok (results s');
}.

(** The state in which the body of the loop starts. *)
Definition delivered (t : Tick) (s : Loop) : Loop := snd (deliver t s).

(** ** The loop: the drain *)

(** The variables other than the trace are the same. *)
Record same_vars (s s' : Loop) : Prop := mk_same_vars {
  sv_keep : keep_looping s' = keep_looping s;
  sv_latest : latest_message_time s' = latest_message_time s;
  sv_results : results s' = results s;
  sv_queued : queued_images s' = queued_images s;
  sv_since : time_since_last_msg s' = time_since_last_msg s;
  sv_pool : pool s' = pool s;
}.

(** What a drain does. *)
Record drained (s s' : Loop) : Prop := mk_drained {
  dr_keep : keep_looping s' = keep_looping s;
  dr_latest : latest_message_time s' = latest_message_time s;
  dr_since : time_since_last_msg s' = time_since_last_msg s;
  dr_pool : pool s' = pool s;
  dr_results : results s' = [];
  dr_queued : queued_images s' = queued_images s - Z.of_nat (length (results s));
  dr_pops : pops (events s') = pops (events s) ++ results s;
  dr_sends : sends (events s') = sends (events s) ++ omap snd (results s);
  dr_submits : submits (events s') = submits (events s);
}.

(** ** The loop: one iteration *)

(** The state once [time_since_last_msg] has been assigned, when it is. *)
Definition stamped (restart_timeout : option Q) (t : Tick) (s : Loop) : Loop :=
  if truthy restart_timeout
  then set_time_since_last_msg (minutes_between (now_check t) (latest_message_time s)) s
  else s.

(** The state an iteration ends in when it goes through. *)
Definition dispatched (config : Config) (pub_topic : string) (t : Tick) (s : Loop) : Loop :=
  match msg t with
  | None => s
  | Some m =>
      let task := mkTask config (data m) pub_topic in
      mkLoop (keep_looping s) (now_recv t) (results s) (queued_images s + 1)
        (time_since_last_msg s) (pool s ++ [task])
        (events s ++ [Log "warper_loop" DEBUG "New message received: %s" [AMsg m]; Submit task])
  end.

(** The state in which [if queued_images == 0] is evaluated. *)
Definition checked (config : Config) (t : Tick) (s : Loop) : Loop :=
  stamped (restart_timeout config) t (snd (drain t (delivered t s))).

(** What holds at the check, in terms of the state the iteration began in. *)
Record at_check (config : Config) (t : Tick) (s c : Loop) : Prop := mk_at_check {
  ck_keep : keep_looping c = keep_looping s && negb (sigterm t);
  ck_latest : latest_message_time c = latest_message_time s;
  ck_results : results c = [];
  ck_queued :
    queued_images c = queued_images s - Z.of_nat (length (results (delivered t s)));
  ck_since :
    time_since_last_msg c =
    if truthy (restart_timeout config)
    then Some (minutes_between (now_check t) (latest_message_time s))
    else time_since_last_msg s;
  ck_pool : pool c = pool (delivered t s);
  ck_submits : submits (events c) = submits (events s);
  ck_pops : pops (events c) = pops (events s) ++ results (delivered t s);
  ck_sends : sends (events c) = sends (events s) ++ omap snd (results (delivered t s));
}.

(** The state in which the loop returns to restart. *)
Definition restarting (since : Q) (c : Loop) : Loop :=
  add_event (Log "warper_loop" DEBUG "%.0f minutes since last message" [AFloat since]) c.

(** The ways an iteration can end, told from the state at the check. *)
Inductive ending (config : Config) (pub_topic : string) (t : Tick) (c : Loop)
    : res Flow * Loop -> Prop :=
| end_busy :
    queued_images c <> 0 ->
    ending config pub_topic t c (Ok Continue, dispatched config pub_topic t c)
| end_sigterm :
    queued_images c = 0 -> keep_looping c = false ->
    ending config pub_topic t c (Ok (Return (Some SIGTERM)), c)
| end_restart since timeout :
    queued_images c = 0 -> keep_looping c = true ->
    time_since_last_msg c = Some since -> restart_timeout config = Some timeout ->
    (timeout < since)%Q ->
    ending config pub_topic t c (Ok (Return None), restarting since c)
| end_wait since timeout :
    queued_images c = 0 -> keep_looping c = true ->
    time_since_last_msg c = Some since -> restart_timeout config = Some timeout ->
    ~ (timeout < since)%Q ->
    ending config pub_topic t c (Ok Continue, dispatched config pub_topic t c)
| end_unbound :
    queued_images c = 0 -> keep_looping c = true ->
    time_since_last_msg c = None ->
    ending config pub_topic t c (Raise (UnboundLocalError "time_since_last_msg"), c)
| end_type_error since :
    queued_images c = 0 -> keep_looping c = true ->
    time_since_last_msg c = Some since -> restart_timeout config = None ->
    ending config pub_topic t c (Raise TypeError, c).

(** ** The loop: invariants *)

Record loop_inv (config : Config) (s : Loop) : Prop := mk_loop_inv {
  inv_balance :
    queued_images s
    = Z.of_nat (length (submits (events s))) - Z.of_nat (length (pops (events s)));
  inv_pending : Z.of_nat (length (pool s) + length (results s)) <= queued_images s;
  inv_results : Forall result_ok (results s);
  inv_since : truthy (restart_timeout config) = false -> time_since_last_msg s = None;
}.

(** The state an outcome holds. *)
Definition state_of (o : Outcome) : Loop :=
  match o with
  | Running s | Returned _ s | Raised _ s => s
  end.

(** ** The loop: the restart *)

(** The reading of the clock at the last message received during a call of
    the loop, and the reading at its start when there has been none. *)
Definition last_event_time (start : Z) (ticks : list Tick) : Z :=
  fold_left (fun latest t => match msg t with Some _ => now_recv t | None => latest end)
    ticks start.

(** How a call of the loop stands, without its state. *)
Definition verdict (o : Outcome) : option (res (option Signal)) :=
  match o with
  | Running _ => None
  | Returned v _ => Some (Ok v)
  | Raised e _ => Some (Raise e)
  end.

(** ** Tokens and base names *)

(** [s], read with [rest] after it, starts a white-space character at none
    of its positions. *)
Fixpoint spaceless_before (s rest : string) : bool :=
  match s with
  | EmptyString => true
  | String c r => Nat.eqb (Str.space_len (s +:+ rest)) 0 && spaceless_before r rest
  end.

(** No white-space character occurs in [s]. *)
Definition spaceless (s : string) : bool := spaceless_before s "".

(** [s] without its white-space characters; [skip] as in [Str.split_from]. *)
Fixpoint without_spaces_from (s : string) (skip : nat) : string :=
  match s with
  | EmptyString => EmptyString
  | String c r =>
      match skip with
      | S k => without_spaces_from r k
      | O =>
          match Str.space_len s with
          | O => String c (without_spaces_from r 0)
          | S k => without_spaces_from r k
          end
      end
  end.

Definition without_spaces (s : string) : string := without_spaces_from s 0.

(** U+00A0, the no-break space. *)
Definition nbsp : string := String "194" (String "160" "").

(** The strings of a list, one after the other. *)
Definition flatten (l : list string) : string := fold_right String.append "" l.

(** Whether [c] occurs in [s]. *)
Fixpoint contains (c : ascii) (s : string) : bool :=
  match s with
  | EmptyString => false
  | String a r => Ascii.eqb a c || contains c r
  end.

(** The index of the last [c] in a string that has one. *)
Fixpoint last_index (c : ascii) (s : string) : nat :=
  match s with
  | EmptyString => O
  | String _ r => if contains c r then S (last_index c r) else O
  end.

(** ** Inputs of the examples *)

(** Hosts and inputs used in the examples. *)
Module Scenario.

Definition clock (n : nat) : Q := inject_Z (Z.of_nat n).

(** Every command exits with status 0. *)
Definition host_ok : OS := mkOS (fun _ => Ok (mkCompleted 0 [])) clock.

(** Every command exits with status 1 and writes ["bad projection"]. *)
Definition host_bad_projection : OS :=
  mkOS (fun _ => Ok (mkCompleted 1 (list_byte_of_string "bad projection"))) clock.

(** The commands are there and may not be executed. *)
Definition host_denied : OS := mkOS (fun _ => Raise PermissionError) clock.

(** Every command exits with status 1 and writes the byte [0xff]. *)
Definition host_garbled : OS := mkOS (fun _ => Ok (mkCompleted 1 [Byte.xff])) clock.

(** [gdalwarp] works, [gdaladdo] exits with status 1. *)
Definition host_no_overviews : OS :=
  mkOS (fun cmd =>
          match cmd with
          | "gdalwarp" :: _ => Ok (mkCompleted 0 [])
          | _ => Ok (mkCompleted 1 (list_byte_of_string "no overviews"))
          end) clock.

Definition geos : ODict.t OptVal := [("t_srs", OStr "EPSG:4326")].

Definition config (timeout : option Q) : Config :=
  mkConfig "/out" "geos" [("geos", geos)] (Some [2; 4; 8]) timeout.

Definition payload : gmap string PyVal :=
  {[ "uri" := PStr "/in/a.tif"; "sensor" := PStr "seviri"; "orbit" := PInt 7 ]}.

Definition inbound : Message (gmap string PyVal) := mkMessage "/in/topic" "file" payload.

Definition world0 : World := mkWorld [payload] [] 0.

Definition minute : Z := 60000000.

(** An iteration at time [now] (in microseconds). *)
Definition tick (signal : bool) (done : list (nat * OS))
    (m : option (Message (gmap string PyVal))) (now : Z) : Tick :=
  mkTick signal done m now now false.

End Scenario.

(** A buffer to drain. *)
Module DrainExample.

Definition sent : Message (gmap string PyVal) :=
  mkMessage "/out/topic" "file"
    (<["uid" := PStr "a.tif"]> (<["uri" := PStr "/out/a.tif"]> Scenario.payload)).

(** Two results wait in the buffer: a reprojected file and a failure. *)
Definition state : Loop :=
  mkLoop true 0 [(Scenario.payload, Some sent); (Scenario.payload, None)] 2 None [] [].

Definition tick : Tick := Scenario.tick false [] None 1000000.

End DrainExample.

(** What the loop meets in the examples. *)
Module LoopExample.

Definition topic : string := "/out/topic".

(** Two messages arrive, then the first file is done. *)
Definition busy : Feed :=
  mkFeed 0
    [Scenario.tick false [] (Some Scenario.inbound) 1000000;
     Scenario.tick false [] (Some Scenario.inbound) 2000000;
     Scenario.tick false [(0%nat, Scenario.host_ok)] None 3000000].

(** Nothing has happened yet. *)
Definition fresh : Feed := mkFeed 0 [].

(** Nothing arrives for six minutes. *)
Definition quiet : Tick := Scenario.tick false [] None (6 * Scenario.minute).

(** SIGTERM has been delivered and nothing else happens. *)
Definition stop : Tick := Scenario.tick true [] None 4000000.

(** The second file is done. *)
Definition last_done : Tick :=
  Scenario.tick false [(0%nat, Scenario.host_ok)] None 5000000.

End LoopExample.

(** A restart, and what follows it. *)
Module RestartExample.

Definition config : Config := Scenario.config (Some 5%Q).

(** A message arrives after one second, its file is done a second later,
    and nothing has arrived when six minutes have passed. *)
Definition first_call : Feed :=
  mkFeed 0
    [Scenario.tick false [] (Some Scenario.inbound) 1000000;
     Scenario.tick false [(0%nat, Scenario.host_ok)] None 2000000;
     Scenario.tick false [] None (6 * Scenario.minute)].

(** The loop is called again one second later. *)
Definition second_call : Feed := mkFeed (6 * Scenario.minute + 1000000) [].

(** Seven minutes after the start, still nothing has arrived. *)
Definition later : Tick := Scenario.tick false [] None (7 * Scenario.minute).

(** A message has arrived after one second, and its file is done. *)
Definition worked : Feed :=
  mkFeed 0
    [Scenario.tick false [] (Some Scenario.inbound) 1000000;
     Scenario.tick false [(0%nat, Scenario.host_ok)] None 2000000].

(** Six minutes after the start a message arrives. *)
Definition late_message : Tick :=
  Scenario.tick false [] (Some Scenario.inbound) (6 * Scenario.minute).

(** As [first_call], and SIGTERM is handled while the last iteration
    returns. *)
Definition signalled : Feed :=
  mkFeed 0
    [Scenario.tick false [] (Some Scenario.inbound) 1000000;
     Scenario.tick false [(0%nat, Scenario.host_ok)] None 2000000;
     mkTick false [] None (6 * Scenario.minute) (6 * Scenario.minute) true].

(** The next call of the loop: a message arrives and its file is done. *)
Definition next_call : Feed :=
  mkFeed (6 * Scenario.minute + 1000000)
    [Scenario.tick false [] (Some Scenario.inbound) (6 * Scenario.minute + 2000000);
     Scenario.tick false [(0%nat, Scenario.host_ok)] None (6 * Scenario.minute + 3000000)].

End RestartExample.

(** ** The output path *)

(** Hosts on which a command is missing. *)
Module Missing.

(** No command is installed. *)
Definition host_bare : OS := mkOS (fun _ => Raise FileNotFoundError) Scenario.clock.

(** [gdalwarp] works and [gdaladdo] is not installed. *)
Definition host_no_gdaladdo : OS :=
  mkOS (fun cmd =>
          match cmd with
          | "gdalwarp" :: _ => Ok (mkCompleted 0 [])
          | _ => Raise FileNotFoundError
          end) Scenario.clock.

End Missing.

(** ** Workers that raise *)

(** The tasks counted in [queued_images] that are neither in the pool nor in
    the buffer: their worker has raised, and no callback will come. *)
Definition lost (s : Loop) : Z :=
  queued_images s - Z.of_nat (length (pool s) + length (results s)).

(** A message whose payload does not name a file. *)
Module Crash.

Definition inbound : Message (gmap string PyVal) :=
  mkMessage "/in/topic" "file" {[ "sensor" := PStr "seviri" ]}.

(** The message arrives. *)
Definition feed : Feed := mkFeed 0 [Scenario.tick false [] (Some inbound) 1000000].

(** Its worker is done. *)
Definition done : Tick := Scenario.tick false [(0%nat, Scenario.host_ok)] None 2000000.

(** SIGTERM is delivered, and a message arrives with it. *)
Definition stop_with_message : Tick :=
  Scenario.tick true [] (Some Scenario.inbound) 4000000.

End Crash.

(** ** Where the messages sent come from *)

(** The message that announces the reprojection of [fname_in], for an
    inbound payload. *)
Definition announcement (config : Config) (pub_topic : string)
    (payload : gmap string PyVal) (fname_in : string) : Message (gmap string PyVal) :=
  let fname := Path.basename fname_in in
  mkMessage pub_topic "file"
    (<["uid" := PStr fname]>
       (<["uri" := PStr (Path.join (target_dir config) fname)]> payload)).

(** A result is what a worker returns for a task. *)
Definition answers (task : Task) (r : Result) : Prop :=
  fst r = task_data task /\
  match snd r with
  | None => True
  | Some m =>
      exists fname_in,
        task_data task !! "uri" = Some (PStr fname_in) /\
        task_topic task <> "" /\
        m = announcement (task_config task) (task_topic task) (task_data task) fname_in
  end.

(** Every task comes from this configuration, every result from a task
    handed to the pool, and every message sent from a result taken from the
    buffer. *)
Record traced (config : Config) (pub_topic : string) (workers : list Task)
    (buffer : list Result) (tr : list Event) : Prop := mk_traced {
  tr_tasks : forall task, task ∈ submits tr ->
             task_config task = config /\ task_topic task = pub_topic;
  tr_pool : forall task, task ∈ workers -> task ∈ submits tr;
  tr_buffer : forall r, r ∈ buffer -> exists task, task ∈ submits tr /\ answers task r;
  tr_pops : forall r, r ∈ pops tr -> exists task, task ∈ submits tr /\ answers task r;
  tr_sends : sends tr = omap snd (pops tr);
}.

Definition traced_state (config : Config) (pub_topic : string) (s : Loop) : Prop :=
  traced config pub_topic (pool s) (results s) (events s).

(** What the process has done, however [main] stands. *)
Definition trace_of (o : MainOutcome) : list Event :=
  match o with
  | MainRunning s => events s
  | MainStopped pub | MainRaised _ pub | MainStarting pub _ => pub
  end.

(** * Properties *)

(** ** Strings and paths: examples *)

Example basename_ex : Path.basename "/in/a.tif" = "a.tif".
Proof. reflexivity. Qed.

Example basename_dir_ex : Path.basename "/in/" = "".
Proof. reflexivity. Qed.

Example join_ex : Path.join "/out" "a.tif" = "/out/a.tif".
Proof. reflexivity. Qed.

Example join_slash_ex : Path.join "/out/" "a.tif" = "/out/a.tif".
Proof. reflexivity. Qed.

Example split_ex : Str.split "  -tr 1000   1000 " = ["-tr"; "1000"; "1000"].
Proof. reflexivity. Qed.

Example split_nbsp_ex : Str.split ("1000" +:+ nbsp +:+ "1000") = ["1000"; "1000"].
Proof. reflexivity. Qed.

Example fmt_f1_ex : Str.fmt_f1 (5 # 2) = "2.5" /\ Str.fmt_f1 (1 # 3) = "0.3".
Proof. split; vm_compute; reflexivity. Qed.

(** Twenty seconds are [0.3333333333333333] minutes, the float
    [6004799503160661 / 2^54]; six minutes are [6.0]; and one microsecond
    more than [2^29] minutes is [2^29] minutes. *)
Example minutes_between_ex :
  minutes_between 20000000 0 = 6004799503160661 # 18014398509481984 /\
  minutes_between (6 * 60000000) 0 = 6 # 1 /\
  minutes_between (2 ^ 29 * 60000000 + 1) 0 = 2 ^ 29 # 1.
Proof. vm_compute. repeat split. Qed.

(** With [restart_timeout: 0.3333333333333333], a loop that has been idle
    for twenty seconds goes on: the minutes counted are the timeout, not
    more. *)
Example restart_boundary_ex :
  fst (iteration (Scenario.config (Some (6004799503160661 # 18014398509481984)))
         LoopExample.topic (Scenario.tick false [] None 20000000) (loop_init 0 [] []))
  = Ok Continue /\
  fst (iteration (Scenario.config (Some (6004799503160661 # 18014398509481984)))
         LoopExample.topic (Scenario.tick false [] None 20000001) (loop_init 0 [] []))
  = Ok (Return None).
Proof. vm_compute. repeat split. Qed.

Example of_int_ex : map Str.of_int [2; 4; 8] = ["2"; "4"; "8"].
Proof. vm_compute. reflexivity. Qed.

(** ** Reading traces *)

Lemma commands_app tr1 tr2 : commands (tr1 ++ tr2) = commands tr1 ++ commands tr2.
Proof. apply omap_app. Qed.

Lemma sends_app tr1 tr2 : sends (tr1 ++ tr2) = sends tr1 ++ sends tr2.
Proof. apply omap_app. Qed.

Lemma pops_app tr1 tr2 : pops (tr1 ++ tr2) = pops tr1 ++ pops tr2.
Proof. apply omap_app. Qed.

Lemma submits_app tr1 tr2 : submits (tr1 ++ tr2) = submits tr1 ++ submits tr2.
Proof. apply omap_app. Qed.

(** ** The reprojection command *)

Lemma warp_list_opts_spec opt items opts :
  warp_list_opts opt items opts = opts ++ option_args opt (OList items).
Proof.
  revert opts. induction items as [|itm items IH]; intros opts; simpl.
  - by rewrite app_nil_r.
  - rewrite IH. simpl. by rewrite <- app_assoc.
Qed.

Lemma getitem_in {V} (d : ODict.t V) k v :
  ODict.wf d -> In (k, v) d -> ODict.getitem d k = Ok v.
Proof.
  unfold ODict.wf, ODict.keys.
  induction d as [|[k' v'] d IH]; simpl; intros Hwf Hin; [done|].
  apply NoDup_cons in Hwf as [Hk' Hwf].
  destruct Hin as [Heq|Hin].
  - inversion Heq; subst. by rewrite String.eqb_refl.
  - destruct (String.eqb_spec k k') as [->|Hne]; [|by apply IH].
    exfalso. apply Hk'. apply list_elem_of_In.
    change k' with (fst (k', v)). by apply in_map.
Qed.

Lemma warp_opts_loop_spec config rest cmd :
  (forall k v, In (k, v) rest -> ODict.getitem config k = Ok v) ->
  warp_opts_loop config (ODict.keys rest) cmd
  = Ok (cmd ++ flat_map (fun kv => option_args (fst kv) (snd kv)) rest).
Proof.
  revert cmd. induction rest as [|[k v] rest IH]; intros cmd Hget; simpl.
  - by rewrite app_nil_r.
  - rewrite (Hget k v) by (by left).
    destruct v as [items|s].
    + rewrite IH by (intros; apply Hget; by right).
      rewrite warp_list_opts_spec. simpl. by rewrite <- app_assoc.
    + rewrite IH by (intros; apply Hget; by right).
      simpl. by rewrite <- app_assoc.
Qed.

Lemma get_warp_command_spec config fname_in fname_out :
  ODict.wf config ->
  _get_warp_command config fname_in fname_out
  = Ok ("gdalwarp" :: flat_map (fun kv => option_args (fst kv) (snd kv)) config
          ++ [fname_in; fname_out]).
Proof.
  intros Hwf. unfold _get_warp_command.
  rewrite warp_opts_loop_spec by (intros; by apply getitem_in).
  reflexivity.
Qed.

(** ** The command runner *)

Lemma run_cmd_empty os w : fst (_run_cmd [] os w) = Raise IndexError.
Proof. reflexivity. Qed.

Lemma run_cmd_missing prog args os w :
  os_run os (prog :: args) = Raise FileNotFoundError ->
  _run_cmd (prog :: args) os w
  = (Ok (false, "Command '" +:+ prog +:+ "' not found"), started (prog :: args) 1 w).
Proof.
  intros Hrun. unfold _run_cmd, time_time, subprocess_run, emit. unfold_eff.
  simpl. rewrite Hrun. reflexivity.
Qed.

Lemma run_cmd_launch_error prog args os w e :
  os_run os (prog :: args) = Raise e -> e <> FileNotFoundError ->
  _run_cmd (prog :: args) os w = (Raise e, started (prog :: args) 1 w).
Proof.
  intros Hrun Hne. unfold _run_cmd, time_time, subprocess_run, emit. unfold_eff.
  simpl. rewrite Hrun. simpl.
  destruct (decide (e = FileNotFoundError)); [done|reflexivity].
Qed.

Lemma run_cmd_exit_zero prog args os w p :
  os_run os (prog :: args) = Ok p -> returncode p = 0 ->
  _run_cmd (prog :: args) os w
  = (Ok (true, "File reprojected in " +:+ Str.fmt_f1 (elapsed_in os w) +:+ " seconds."),
     started (prog :: args) 2 w).
Proof.
  intros Hrun Hrc. unfold _run_cmd, time_time, subprocess_run, emit. unfold_eff.
  simpl. rewrite Hrun. simpl. rewrite Hrc. reflexivity.
Qed.

Lemma run_cmd_exit_nonzero prog args os w p :
  os_run os (prog :: args) = Ok p -> returncode p <> 0 ->
  _run_cmd (prog :: args) os w
  = (match Str.decode_utf8 (stderr p) with
     | Ok text => Ok (false, text)
     | Raise e => Raise e
     end, started (prog :: args) 2 w).
Proof.
  intros Hrun Hrc. unfold _run_cmd, time_time, subprocess_run, emit. unfold_eff.
  simpl. rewrite Hrun. simpl.
  destruct (Z.eqb_spec (returncode p) 0) as [|_]; [done|]. simpl.
  destruct (Str.decode_utf8 (stderr p)); reflexivity.
Qed.

(** A command that is started leaves one [Run] in the trace, whatever comes
    of it, and it reports success exactly when it exits with status 0. *)
Lemma run_cmd_trace prog args os w :
  commands (trace (snd (_run_cmd (prog :: args) os w)))
  = commands (trace w) ++ [prog :: args].
Proof.
  destruct (os_run os (prog :: args)) as [p|e] eqn:Hrun.
  - destruct (Z.eq_dec (returncode p) 0) as [Hrc|Hrc].
    + rewrite (run_cmd_exit_zero _ _ _ _ _ Hrun Hrc). simpl. by rewrite commands_app.
    + rewrite (run_cmd_exit_nonzero _ _ _ _ _ Hrun Hrc). simpl. by rewrite commands_app.
  - destruct (decide (e = FileNotFoundError)) as [->|Hne].
    + rewrite (run_cmd_missing _ _ _ _ Hrun). simpl. by rewrite commands_app.
    + rewrite (run_cmd_launch_error _ _ _ _ _ Hrun Hne). simpl. by rewrite commands_app.
Qed.

Lemma run_cmd_success prog args os w msg :
  fst (_run_cmd (prog :: args) os w) = Ok (true, msg) ->
  exits_zero os (prog :: args) = true.
Proof.
  unfold exits_zero.
  destruct (os_run os (prog :: args)) as [p|e] eqn:Hrun.
  - destruct (Z.eq_dec (returncode p) 0) as [Hrc|Hrc].
    + intros _. by apply Z.eqb_eq.
    + rewrite (run_cmd_exit_nonzero _ _ _ _ _ Hrun Hrc). simpl.
      destruct (Str.decode_utf8 (stderr p)); discriminate.
  - destruct (decide (e = FileNotFoundError)) as [->|Hne].
    + rewrite (run_cmd_missing _ _ _ _ Hrun). discriminate.
    + rewrite (run_cmd_launch_error _ _ _ _ _ Hrun Hne). discriminate.
Qed.

(** C7, as stated, fails: the runner raises for an empty argument vector,
    when starting the process fails for another reason than a missing
    executable, and when the standard error of a failed command is not
    UTF-8. *)
Lemma run_cmd_may_raise :
  fst (_run_cmd [] Scenario.host_ok Scenario.world0) = Raise IndexError /\
  fst (_run_cmd ["gdalwarp"] Scenario.host_denied Scenario.world0) = Raise PermissionError /\
  fst (_run_cmd ["gdalwarp"] Scenario.host_garbled Scenario.world0) = Raise UnicodeDecodeError.
Proof. repeat split; vm_compute; reflexivity. Qed.

(** C7 (amended): for a non-empty argument vector, when starting the process
    raises nothing but [FileNotFoundError] and the standard error of a
    command that exits with a non-zero status decodes as UTF-8, the runner
    returns a pair: failure and a message naming [cmd[0]] when the
    executable is missing, failure and the standard-error text when the
    status is not 0, success and a message with the elapsed seconds
    otherwise. *)
Theorem run_cmd_returns_pair cmd os w :
  cmd <> [] ->
  (forall e, os_run os cmd = Raise e -> e = FileNotFoundError) ->
  (forall p, os_run os cmd = Ok p -> returncode p <> 0 ->
             is_Ok (Str.decode_utf8 (stderr p)) = true) ->
  exists ok msg,
    fst (_run_cmd cmd os w) = Ok (ok, msg) /\
    (os_run os cmd = Raise FileNotFoundError ->
     ok = false /\
     exists prog, head cmd = Some prog /\ msg = "Command '" +:+ prog +:+ "' not found") /\
    (forall p, os_run os cmd = Ok p -> returncode p <> 0 ->
     ok = false /\ Str.decode_utf8 (stderr p) = Ok msg) /\
    (forall p, os_run os cmd = Ok p -> returncode p = 0 ->
     ok = true /\
     msg = "File reprojected in " +:+ Str.fmt_f1 (elapsed_in os w) +:+ " seconds.").
Proof.
  intros Hne Hlaunch Hdec. destruct cmd as [|prog args]; [done|].
  destruct (os_run os (prog :: args)) as [p|e] eqn:Hrun.
  - destruct (Z.eq_dec (returncode p) 0) as [Hrc|Hrc].
    + eexists _, _. rewrite (run_cmd_exit_zero _ _ _ _ _ Hrun Hrc). simpl.
      split; [reflexivity|]. split; [discriminate|]. split.
      * intros p' [= <-] Hrc'. done.
      * intros p' [= <-] _. done.
    + specialize (Hdec p eq_refl Hrc).
      destruct (Str.decode_utf8 (stderr p)) as [text|] eqn:Htext; [|discriminate].
      exists false, text. rewrite (run_cmd_exit_nonzero _ _ _ _ _ Hrun Hrc), Htext. simpl.
      split; [reflexivity|]. split; [discriminate|]. split.
      * intros p' [= <-] _. done.
      * intros p' [= <-] Hrc'. done.
  - rewrite (Hlaunch e eq_refl) in *.
    eexists _, _. rewrite (run_cmd_missing _ _ _ _ Hrun). simpl.
    split; [reflexivity|]. split; [|split; discriminate].
    intros _. split; [done|]. by exists prog.
Qed.

Lemma run_cmd_returns_pair_witness :
  ["gdalwarp"; "/in/a.tif"; "/out/a.tif"] <> [] /\
  exists ok msg,
    fst (_run_cmd ["gdalwarp"; "/in/a.tif"; "/out/a.tif"]
           Scenario.host_bad_projection Scenario.world0) = Ok (ok, msg) /\
    ok = false /\ msg = "bad projection".
Proof.
  split; [discriminate|].
  destruct (run_cmd_returns_pair ["gdalwarp"; "/in/a.tif"; "/out/a.tif"]
              Scenario.host_bad_projection Scenario.world0)
    as (ok & msg & Hres & _ & Hfail & _).
  - discriminate.
  - intros e He. vm_compute in He. discriminate He.
  - intros p Hp _. vm_compute in Hp. injection Hp as <-. vm_compute. reflexivity.
  - exists ok, msg. split; [exact Hres|].
    destruct (Hfail (mkCompleted 1 (list_byte_of_string "bad projection")))
      as [Hok Hmsg]; [reflexivity|discriminate|].
    split; [exact Hok|]. vm_compute in Hmsg. congruence.
Defined.

(** ** [warp] and [add_overviews] *)

Lemma commands_logged name lvl fmt args w :
  commands (trace (logged name lvl fmt args w)) = commands (trace w).
Proof. simpl. rewrite commands_app. simpl. by rewrite app_nil_r. Qed.

Lemma warp_unfold fname_in target_dir config os w cmd :
  _get_warp_command config fname_in (Path.join target_dir (Path.basename fname_in)) = Ok cmd ->
  warp fname_in target_dir config os w =
  match _run_cmd cmd os
          (logged "warp" DEBUG "Running gdalwarp for '%s'" [AStr (Path.basename fname_in)] w)
  with
  | (Ok (true, msg), w') =>
      (Ok (Some (Path.join target_dir (Path.basename fname_in))), logged "warp" DEBUG msg [] w')
  | (Ok (false, msg), w') => (Ok None, logged "warp" ERROR msg [] w')
  | (Raise e, w') => (Raise e, w')
  end.
Proof.
  intros Hcmd. unfold warp, log, emit. unfold_eff. rewrite Hcmd. simpl.
  fold (logged "warp" DEBUG "Running gdalwarp for '%s'" [AStr (Path.basename fname_in)] w).
  destruct (_run_cmd cmd os _) as [[[[|] msg]|e] w']; reflexivity.
Qed.

Lemma warp_commands config fname_in target_dir os w :
  ODict.wf config ->
  commands (trace (snd (warp fname_in target_dir config os w)))
  = commands (trace w) ++ [spec_warp_command config fname_in target_dir].
Proof.
  intros Hwf.
  pose proof (get_warp_command_spec config fname_in
                (Path.join target_dir (Path.basename fname_in)) Hwf) as Hcmd.
  rewrite (warp_unfold _ _ _ _ _ _ Hcmd).
  set (w1 := logged "warp" DEBUG _ _ w).
  pose proof (run_cmd_trace "gdalwarp"
    (flat_map (fun kv => option_args (fst kv) (snd kv)) config
       ++ [fname_in; Path.join target_dir (Path.basename fname_in)]) os w1) as Htr.
  unfold spec_warp_command.
  destruct (_run_cmd _ os w1) as [[[[|] msg]|e] w'] eqn:Hrun;
    cbn [snd] in Htr |- *; rewrite ?commands_logged, Htr;
    unfold w1; by rewrite commands_logged.
Qed.

(** C2: the command [warp] runs is ["gdalwarp"], then the arguments of each
    option in the order of the mapping (one [-option value] pair per element
    of a list, [-option] and the tokens of a string), then the input path and
    the output path, which is the target directory joined with the base name
    of the input path. *)
Theorem warp_runs_spec_command config fname_in target_dir os w :
  ODict.wf config ->
  _get_warp_command config fname_in (Path.join target_dir (Path.basename fname_in))
  = Ok (spec_warp_command config fname_in target_dir) /\
  commands (trace (snd (warp fname_in target_dir config os w)))
  = commands (trace w) ++ [spec_warp_command config fname_in target_dir].
Proof.
  intros Hwf. split.
  - by apply get_warp_command_spec.
  - by apply warp_commands.
Qed.

Lemma warp_runs_spec_command_witness :
  ODict.wf [("te", OList ["0"; "0"; "10"; "10"]); ("t_srs", OStr " EPSG:4326 ")] /\
  commands (trace (snd (warp "/in/a.tif" "/out"
                          [("te", OList ["0"; "0"; "10"; "10"]); ("t_srs", OStr " EPSG:4326 ")]
                          Scenario.host_ok Scenario.world0)))
  = [["gdalwarp"; "-te"; "0"; "-te"; "0"; "-te"; "10"; "-te"; "10";
      "-t_srs"; "EPSG:4326"; "/in/a.tif"; "/out/a.tif"]].
Proof.
  assert (Hwf : ODict.wf [("te", OList ["0"; "0"; "10"; "10"]); ("t_srs", OStr " EPSG:4326 ")]).
  { solve_wf. }
  split; [exact Hwf|].
  exact (proj2 (warp_runs_spec_command _ "/in/a.tif" "/out"
                  Scenario.host_ok Scenario.world0 Hwf)).
Defined.

Lemma run_cmd_heap cmd os w : heap (snd (_run_cmd cmd os w)) = heap w.
Proof.
  destruct cmd as [|prog args]; [reflexivity|].
  destruct (os_run os (prog :: args)) as [p|e] eqn:Hrun.
  - destruct (Z.eq_dec (returncode p) 0) as [Hrc|Hrc].
    + by rewrite (run_cmd_exit_zero _ _ _ _ _ Hrun Hrc).
    + by rewrite (run_cmd_exit_nonzero _ _ _ _ _ Hrun Hrc).
  - destruct (decide (e = FileNotFoundError)) as [->|Hne].
    + by rewrite (run_cmd_missing _ _ _ _ Hrun).
    + by rewrite (run_cmd_launch_error _ _ _ _ _ Hrun Hne).
Qed.

(** A command that exits with status 0 is reported as a success, any other
    outcome is not. *)
Lemma run_cmd_succeeds prog args os w :
  exits_zero os (prog :: args) = true ->
  exists msg, _run_cmd (prog :: args) os w = (Ok (true, msg), started (prog :: args) 2 w).
Proof.
  unfold exits_zero. destruct (os_run os (prog :: args)) as [p|e] eqn:Hrun; [|done].
  intros Hrc%Z.eqb_eq. eexists. by apply (run_cmd_exit_zero _ _ _ _ p).
Qed.

Lemma run_cmd_fails prog args os w :
  exits_zero os (prog :: args) = false ->
  forall msg, fst (_run_cmd (prog :: args) os w) <> Ok (true, msg).
Proof.
  intros Hz msg Hok. apply run_cmd_success in Hok. congruence.
Qed.

Lemma add_overviews_none fname overviews os w :
  overviews_falsy overviews = true ->
  add_overviews fname overviews os w
  = (Ok true, logged "overviews" DEBUG "No overviews configured" [] w).
Proof. intros Hf. unfold add_overviews. rewrite Hf. reflexivity. Qed.

Lemma add_overviews_some fname overviews os w :
  overviews_falsy overviews = false ->
  add_overviews fname overviews os w =
  match _run_cmd (overviews_command fname overviews) os w with
  | (Ok (true, msg), w') => (Ok true, logged "overviews" INFO msg [] w')
  | (Ok (false, msg), w') => (Ok false, logged "overviews" ERROR msg [] w')
  | (Raise e, w') => (Raise e, w')
  end.
Proof.
  intros Hf. unfold add_overviews, overviews_command, log, emit. unfold_eff.
  rewrite Hf. cbn [app].
  destruct (_run_cmd _ os w) as [[[[|] msg]|e] w']; reflexivity.
Qed.

Lemma add_overviews_true fname overviews os w :
  overviews_ok os fname overviews = true ->
  exists w', add_overviews fname overviews os w = (Ok true, w') /\ heap w' = heap w /\
    commands (trace w')
    = commands (trace w)
      ++ (if overviews_falsy overviews then [] else [overviews_command fname overviews]).
Proof.
  unfold overviews_ok. intros Hok.
  destruct (overviews_falsy overviews) eqn:Hf.
  - rewrite add_overviews_none by done. eexists. split; [reflexivity|].
    split; [reflexivity|]. by rewrite commands_logged, app_nil_r.
  - simpl in Hok. rewrite add_overviews_some by done.
    destruct (run_cmd_succeeds _ _ _ w Hok) as [msg Hrun].
    unfold overviews_command in *. rewrite Hrun. eexists. split; [reflexivity|].
    split; [reflexivity|]. rewrite commands_logged. simpl. by rewrite commands_app.
Qed.

Lemma add_overviews_not_true fname overviews os w :
  overviews_ok os fname overviews = false ->
  fst (add_overviews fname overviews os w) <> Ok true.
Proof.
  unfold overviews_ok. intros Hok.
  destruct (overviews_falsy overviews) eqn:Hf; [done|]. simpl in Hok.
  rewrite add_overviews_some by done.
  pose proof (run_cmd_fails _ _ _ w Hok) as Hfail. unfold overviews_command in *.
  destruct (_run_cmd _ os w) as [[[[|] msg]|e] w']; simpl in *; try discriminate.
  exfalso. by apply (Hfail msg).
Qed.

Lemma add_overviews_heap fname overviews os w :
  heap (snd (add_overviews fname overviews os w)) = heap w.
Proof.
  destruct (overviews_falsy overviews) eqn:Hf.
  - by rewrite add_overviews_none.
  - rewrite add_overviews_some by done.
    pose proof (run_cmd_heap (overviews_command fname overviews) os w) as Hh.
    destruct (_run_cmd _ os w) as [[[[|] msg]|e] w']; simpl in *; done.
Qed.

Lemma warp_some config fname_in target_dir os w :
  ODict.wf config ->
  warp_ok os config fname_in target_dir = true ->
  exists w', warp fname_in target_dir config os w
             = (Ok (Some (Path.join target_dir (Path.basename fname_in))), w') /\
    heap w' = heap w /\
    commands (trace w') = commands (trace w) ++ [spec_warp_command config fname_in target_dir].
Proof.
  intros Hwf Hok.
  pose proof (get_warp_command_spec config fname_in
                (Path.join target_dir (Path.basename fname_in)) Hwf) as Hcmd.
  pose proof (warp_commands config fname_in target_dir os w Hwf) as Htr.
  rewrite (warp_unfold _ _ _ _ _ _ Hcmd) in *.
  unfold warp_ok, spec_warp_command in *.
  destruct (run_cmd_succeeds _ _ _
              (logged "warp" DEBUG "Running gdalwarp for '%s'" [AStr (Path.basename fname_in)] w)
              Hok) as [msg Hrun].
  rewrite Hrun in *. eexists. split; [reflexivity|]. split; [reflexivity|]. exact Htr.
Qed.

Lemma warp_not_some config fname_in target_dir os w :
  ODict.wf config ->
  warp_ok os config fname_in target_dir = false ->
  forall new_uri, fst (warp fname_in target_dir config os w) <> Ok (Some new_uri).
Proof.
  intros Hwf Hok new_uri.
  pose proof (get_warp_command_spec config fname_in
                (Path.join target_dir (Path.basename fname_in)) Hwf) as Hcmd.
  rewrite (warp_unfold _ _ _ _ _ _ Hcmd).
  unfold warp_ok, spec_warp_command in *.
  pose proof (run_cmd_fails _ _ _
    (logged "warp" DEBUG "Running gdalwarp for '%s'" [AStr (Path.basename fname_in)] w) Hok)
    as Hfail.
  destruct (_run_cmd _ os _) as [[[[|] msg]|e] w']; simpl in *; try discriminate.
  exfalso. by apply (Hfail msg).
Qed.

Lemma warp_heap config fname_in target_dir os w :
  heap (snd (warp fname_in target_dir config os w)) = heap w.
Proof.
  unfold warp, log, emit. unfold_eff.
  destruct (_get_warp_command config fname_in _) as [cmd|e]; [|reflexivity]. simpl.
  pose proof (run_cmd_heap cmd os
    (mkWorld (heap w)
       (trace w ++ [Log "warp" DEBUG "Running gdalwarp for '%s'" [AStr (Path.basename fname_in)]])
       (time_reads w))) as Hh.
  destruct (_run_cmd cmd os _) as [[[[|] msg]|e] w']; simpl in *; done.
Qed.

(** ** [_process_message] *)

Lemma deref_new h d : deref (h ++ [d]) (length h) = d.
Proof. unfold deref. by rewrite lookup_app_r, Nat.sub_diag by lia. Qed.

Lemma deref_old h d l : (l < length h)%nat -> deref (h ++ [d]) l = deref h l.
Proof. intros Hl. unfold deref. by rewrite lookup_app_l. Qed.

Lemma deref_insert_eq h l d : (l < length h)%nat -> deref (<[l := d]> h) l = d.
Proof. intros Hl. unfold deref. by rewrite list_lookup_insert_eq. Qed.

Lemma deref_insert_ne h l l' d : l <> l' -> deref (<[l := d]> h) l' = deref h l'.
Proof. intros Hl. unfold deref. by rewrite list_lookup_insert_ne. Qed.

Lemma config_getitem_projection config opts :
  ODict.getitem (projections config) (target_projection config) = Ok opts ->
  config_getitem config (target_projection config) = Ok (EOpts opts).
Proof. intros Hopts. unfold config_getitem. by rewrite Hopts. Qed.

Lemma message_for_topic topic l :
  message_for topic l
  = if String.eqb topic "" then Raise MessageError else Ok (Some (mkMessage topic "file" l)).
Proof. unfold message_for, Message_init. by destruct (String.eqb topic ""). Qed.

Lemma process_message_unfold_entry config l topic os w fname_in entry opts :
  deref (heap w) l !! "uri" = Some (PStr fname_in) ->
  config_getitem config (target_projection config) = Ok entry ->
  as_options entry = Ok opts ->
  _process_message config l topic os w =
  match warp fname_in (target_dir config) opts os (copied l w) with
  | (Ok (Some new_uri), w1) =>
      match add_overviews new_uri (overviews config) os w1 with
      | (Ok true, w2) =>
          (message_for topic (length (heap w)), assigned (length (heap w)) new_uri w2)
      | (Ok false, w2) => (Ok None, w2)
      | (Raise e, w2) => (Raise e, w2)
      end
  | (Ok None, w1) => (Ok None, w1)
  | (Raise e, w1) => (Raise e, w1)
  end.
Proof.
  intros Huri Hentry Hopts.
  unfold _process_message, dict_copy, dict_getitem, dict_setitem. unfold_eff.
  cbn [heap trace time_reads]. rewrite deref_new, Huri, Hentry. cbn [as_path].
  rewrite Hopts. fold (copied l w).
  destruct (warp fname_in (target_dir config) opts os (copied l w))
    as [[[new_uri|]|e] w1]; [|reflexivity..].
  destruct (add_overviews new_uri (overviews config) os w1) as [[[|]|e] w2];
    [|reflexivity..].
  cbn [negb]. unfold message_for.
  destruct (Message_init topic "file" (length (heap w))); reflexivity.
Qed.

Lemma process_message_unfold config l topic os w fname_in opts :
  deref (heap w) l !! "uri" = Some (PStr fname_in) ->
  ODict.getitem (projections config) (target_projection config) = Ok opts ->
  _process_message config l topic os w =
  match warp fname_in (target_dir config) opts os (copied l w) with
  | (Ok (Some new_uri), w1) =>
      match add_overviews new_uri (overviews config) os w1 with
      | (Ok true, w2) =>
          (message_for topic (length (heap w)), assigned (length (heap w)) new_uri w2)
      | (Ok false, w2) => (Ok None, w2)
      | (Raise e, w2) => (Raise e, w2)
      end
  | (Ok None, w1) => (Ok None, w1)
  | (Raise e, w1) => (Raise e, w1)
  end.
Proof.
  intros Huri Hopts.
  by apply (process_message_unfold_entry _ _ _ _ _ _ (EOpts opts));
    [|apply config_getitem_projection|].
Qed.

(** Without a usable [uri], or without an entry to take the options from,
    there is no message. *)
Lemma process_message_needs config l topic os w m :
  fst (_process_message config l topic os w) = Ok (Some m) ->
  exists fname_in entry opts,
    deref (heap w) l !! "uri" = Some (PStr fname_in) /\
    config_getitem config (target_projection config) = Ok entry /\
    as_options entry = Ok opts.
Proof.
  unfold _process_message, dict_copy, dict_getitem. unfold_eff.
  cbn [heap trace time_reads]. rewrite deref_new.
  destruct (deref (heap w) l !! "uri") as [v|]; [|discriminate].
  destruct (config_getitem config (target_projection config)) as [entry|];
    [|discriminate].
  destruct v as [fname_in| |]; try discriminate. cbn [as_path].
  destruct (as_options entry) as [opts|] eqn:Hopts; [|discriminate].
  intros _. by exists fname_in, entry, opts.
Qed.

Lemma commands_copied l w : commands (trace (copied l w)) = commands (trace w).
Proof. reflexivity. Qed.

(** C3, as stated, fails for an empty publishing topic: both steps succeed
    and the constructor of the message raises, so that no message comes
    out. *)
Lemma message_needs_a_topic :
  warp_ok Scenario.host_ok Scenario.geos "/in/a.tif" "/out" = true /\
  overviews_ok Scenario.host_ok "/out/a.tif" (Some [2; 4; 8]) = true /\
  fst (_process_message (Scenario.config None) 0%nat "" Scenario.host_ok Scenario.world0)
  = Raise MessageError.
Proof. vm_compute. repeat split. Qed.

(** C3 (amended): for a payload naming its file and an entry of the
    configuration that gives the options, a message is produced exactly when
    the reprojection command and the overview step both succeed and the
    publishing topic is not empty; with an empty topic and both steps
    succeeding the constructor of the message raises [MessageError]; when the
    reprojection command does not succeed it is the only command run and no
    message comes out; an empty list of overviews makes the overview step
    succeed. *)
Theorem message_iff_both_steps config l topic os w fname_in entry opts :
  deref (heap w) l !! "uri" = Some (PStr fname_in) ->
  config_getitem config (target_projection config) = Ok entry ->
  as_options entry = Ok opts ->
  ODict.wf opts ->
  let new_uri := Path.join (target_dir config) (Path.basename fname_in) in
  let warp_command := spec_warp_command opts fname_in (target_dir config) in
  let r := _process_message config l topic os w in
  ((exists m, fst r = Ok (Some m)) <->
   warp_ok os opts fname_in (target_dir config) = true /\
   overviews_ok os new_uri (overviews config) = true /\
   topic <> "") /\
  (warp_ok os opts fname_in (target_dir config) = true ->
   overviews_ok os new_uri (overviews config) = true ->
   topic = "" ->
   fst r = Raise MessageError) /\
  (warp_ok os opts fname_in (target_dir config) = false ->
   commands (trace (snd r)) = commands (trace w) ++ [warp_command] /\
   forall m, fst r <> Ok (Some m)) /\
  (overviews config = Some [] ->
   overviews_ok os new_uri (overviews config) = true /\
   (warp_ok os opts fname_in (target_dir config) = true ->
    commands (trace (snd r)) = commands (trace w) ++ [warp_command])).
Proof.
  intros Huri Hentry Hopts Hwf new_uri warp_command r. subst r.
  rewrite (process_message_unfold_entry _ _ _ _ _ _ _ _ Huri Hentry Hopts).
  destruct (warp_ok os opts fname_in (target_dir config)) eqn:Hwarp.
  - destruct (warp_some opts fname_in (target_dir config) os (copied l w) Hwf Hwarp)
      as (w1 & Hw & _ & Htr1).
    rewrite Hw. fold new_uri.
    destruct (overviews_ok os new_uri (overviews config)) eqn:Hov.
    + destruct (add_overviews_true new_uri (overviews config) os w1 Hov)
        as (w2 & Ha & _ & Htr2).
      rewrite Ha, message_for_topic. cbn [fst snd].
      split; [|split; [|split]].
      * destruct (String.eqb_spec topic "") as [->|Hne]; cbn [fst].
        -- split; [intros [m Hm]; discriminate|intros (_ & _ & ?); done].
        -- split; [done|]. intros _. eauto.
      * intros _ _ ->. reflexivity.
      * discriminate.
      * intros Hempty. split; [done|]. intros _.
        change (commands (trace w2) = commands (trace w) ++ [warp_command]).
        rewrite Htr2, Htr1, Hempty. simpl. by rewrite app_nil_r.
    + pose proof (add_overviews_not_true new_uri (overviews config) os w1 Hov) as Hnot.
      destruct (add_overviews new_uri (overviews config) os w1) as [[[|]|e] w2];
        cbn [fst snd] in *; try done.
      * split; [|split; [|split]]; [|discriminate|discriminate|].
        -- split; [intros [m Hm]; discriminate|intros (_ & ? & _); discriminate].
        -- intros Hempty. rewrite Hempty in Hov. discriminate.
      * split; [|split; [|split]]; [|discriminate|discriminate|].
        -- split; [intros [m Hm]; discriminate|intros (_ & ? & _); discriminate].
        -- intros Hempty. rewrite Hempty in Hov. discriminate.
  - pose proof (warp_not_some opts fname_in (target_dir config) os (copied l w) Hwf Hwarp)
      as Hnot.
    pose proof (warp_commands opts fname_in (target_dir config) os (copied l w) Hwf)
      as Htr.
    destruct (warp fname_in (target_dir config) opts os (copied l w))
      as [[[u|]|e] w1]; cbn [fst snd] in *.
    + exfalso. by apply (Hnot u).
    + split; [|split; [|split]].
      * split; [intros [m Hm]; discriminate|intros (? & _); discriminate].
      * discriminate.
      * intros _. split; [exact Htr|discriminate].
      * intros Hempty. split; [|discriminate].
        unfold overviews_ok. by rewrite Hempty.
    + split; [|split; [|split]].
      * split; [intros [m Hm]; discriminate|intros (? & _); discriminate].
      * discriminate.
      * intros _. split; [exact Htr|discriminate].
      * intros Hempty. split; [|discriminate].
        unfold overviews_ok. by rewrite Hempty.
Qed.

Lemma message_iff_both_steps_witness :
  deref (heap Scenario.world0) 0 !! "uri" = Some (PStr "/in/a.tif") /\
  ODict.wf Scenario.geos /\
  (exists m,
     fst (_process_message (Scenario.config None) 0%nat "/out/topic"
            Scenario.host_ok Scenario.world0) = Ok (Some m)) /\
  commands (trace (snd (_process_message (Scenario.config None) 0%nat "/out/topic"
                          Scenario.host_bad_projection Scenario.world0)))
  = [["gdalwarp"; "-t_srs"; "EPSG:4326"; "/in/a.tif"; "/out/a.tif"]] /\
  fst (_process_message (Scenario.config None) 0%nat "/out/topic"
         Scenario.host_bad_projection Scenario.world0)
  <> Ok (Some (mkMessage "/out/topic" "file" 1%nat)).
Proof.
  assert (Huri : deref (heap Scenario.world0) 0 !! "uri" = Some (PStr "/in/a.tif"))
    by (vm_compute; reflexivity).
  assert (Hwf : ODict.wf Scenario.geos) by solve_wf.
  split; [exact Huri|]. split; [exact Hwf|]. split.
  - apply (message_iff_both_steps (Scenario.config None) 0%nat "/out/topic"
             Scenario.host_ok Scenario.world0 "/in/a.tif" (EOpts Scenario.geos)
             Scenario.geos Huri eq_refl eq_refl Hwf).
    split; [vm_compute; reflexivity|]. split; [vm_compute; reflexivity|discriminate].
  - destruct (message_iff_both_steps (Scenario.config None) 0%nat "/out/topic"
                Scenario.host_bad_projection Scenario.world0 "/in/a.tif"
                (EOpts Scenario.geos) Scenario.geos Huri eq_refl eq_refl Hwf)
      as (_ & _ & Hfail & _).
    destruct Hfail as [Htr Hno]; [vm_compute; reflexivity|].
    split; [exact Htr|apply Hno].
Defined.

(** C10, as stated, fails twice.  With an empty publishing topic the
    reprojection succeeds and no message comes out.  And a configuration
    whose [target_projection] is [overviews] is not processed as it would be
    with an empty list: without the key, [config["overviews"]] raises; with
    the empty list, [gdalwarp] is run without options and a message comes
    out. *)
Lemma no_overviews_key_not_always :
  (warp_ok Scenario.host_no_overviews Scenario.geos "/in/a.tif" "/out" = true /\
   fst (_process_message (with_overviews None (Scenario.config None)) 0%nat ""
          Scenario.host_no_overviews Scenario.world0)
   = Raise MessageError) /\
  (fst (_process_message (mkConfig "/out" "overviews" [("geos", Scenario.geos)] None None)
          0%nat "/out/topic" Scenario.host_ok Scenario.world0)
   = Raise (KeyError "overviews") /\
   fst (_process_message
          (mkConfig "/out" "overviews" [("geos", Scenario.geos)] (Some []) None)
          0%nat "/out/topic" Scenario.host_ok Scenario.world0)
   = Ok (Some (mkMessage "/out/topic" "file" 1%nat))).
Proof. vm_compute. repeat split. Qed.

Lemma config_getitem_with_overviews config key :
  overviews config = None ->
  key <> "overviews" ->
  config_getitem (with_overviews (Some []) config) key = config_getitem config key.
Proof.
  intros Hnone Hkey. unfold config_getitem, with_overviews.
  cbn [target_dir target_projection projections overviews restart_timeout].
  destruct (ODict.getitem (projections config) key); [reflexivity|].
  destruct (String.eqb key "target_dir"); [reflexivity|].
  destruct (String.eqb key "target_projection"); [reflexivity|].
  destruct (String.eqb_spec key "overviews"); [done|reflexivity].
Qed.

(** C10 (amended): a configuration without the [overviews] key, whose
    [target_projection] is not [overviews] itself, is processed as one with
    an empty list; the overview step succeeds without running a command; and
    a message is produced whenever the reprojection command succeeds and the
    publishing topic is not empty. *)
Theorem no_overviews_key config l topic os w :
  overviews config = None ->
  (target_projection config <> "overviews" ->
   _process_message config l topic os w
   = _process_message (with_overviews (Some []) config) l topic os w) /\
  (forall fname w1,
     fst (add_overviews fname (overviews config) os w1) = Ok true /\
     commands (trace (snd (add_overviews fname (overviews config) os w1)))
     = commands (trace w1)) /\
  (forall fname_in entry opts,
     deref (heap w) l !! "uri" = Some (PStr fname_in) ->
     config_getitem config (target_projection config) = Ok entry ->
     as_options entry = Ok opts ->
     ODict.wf opts ->
     warp_ok os opts fname_in (target_dir config) = true ->
     topic <> "" ->
     (exists m, fst (_process_message config l topic os w) = Ok (Some m)) /\
     commands (trace (snd (_process_message config l topic os w)))
     = commands (trace w) ++ [spec_warp_command opts fname_in (target_dir config)]).
Proof.
  intros Hnone. split; [|split].
  - intros Hkey.
    pose proof (config_getitem_with_overviews config (target_projection config) Hnone Hkey)
      as Hget.
    unfold _process_message. rewrite Hnone.
    change (target_projection (with_overviews (Some []) config))
      with (target_projection config).
    rewrite Hget. reflexivity.
  - intros fname w1. rewrite Hnone, add_overviews_none by done.
    split; [reflexivity|]. apply commands_logged.
  - intros fname_in entry opts Huri Hentry Hopts Hwf Hwarp Htopic.
    rewrite (process_message_unfold_entry _ _ _ _ _ _ _ _ Huri Hentry Hopts).
    destruct (warp_some opts fname_in (target_dir config) os (copied l w) Hwf Hwarp)
      as (w1 & Hw & _ & Htr1).
    rewrite Hw, Hnone, add_overviews_none, message_for_topic by done.
    destruct (String.eqb_spec topic ""); [done|]. cbn [fst snd].
    split; [eauto|].
    change (commands (trace (logged "overviews" DEBUG "No overviews configured" [] w1))
            = commands (trace w) ++ [spec_warp_command opts fname_in (target_dir config)]).
    by rewrite commands_logged, Htr1.
Qed.

Lemma no_overviews_key_witness :
  overviews (with_overviews None (Scenario.config None)) = None /\
  _process_message (with_overviews None (Scenario.config None)) 0%nat "/out/topic"
    Scenario.host_no_overviews Scenario.world0
  = _process_message (with_overviews (Some []) (Scenario.config None)) 0%nat "/out/topic"
      Scenario.host_no_overviews Scenario.world0 /\
  exists m,
    fst (_process_message (with_overviews None (Scenario.config None)) 0%nat "/out/topic"
           Scenario.host_no_overviews Scenario.world0) = Ok (Some m).
Proof.
  split; [reflexivity|].
  destruct (no_overviews_key (with_overviews None (Scenario.config None)) 0%nat
              "/out/topic" Scenario.host_no_overviews Scenario.world0 eq_refl)
    as (Hsame & _ & Hmsg).
  split; [apply Hsame; discriminate|].
  apply (Hmsg "/in/a.tif" (EOpts Scenario.geos) Scenario.geos);
    [vm_compute; reflexivity|reflexivity|reflexivity|solve_wf|vm_compute; reflexivity
    |discriminate].
Defined.

(** ** The payload of the message *)

Lemma warp_returns config fname_in target_dir os w new_uri :
  fst (warp fname_in target_dir config os w) = Ok (Some new_uri) ->
  new_uri = Path.join target_dir (Path.basename fname_in).
Proof.
  unfold warp, log, emit. unfold_eff.
  destruct (_get_warp_command config fname_in _) as [cmd|e]; [|discriminate]. simpl.
  destruct (_run_cmd cmd os _) as [[[[|] msg]|e] w']; simpl; congruence.
Qed.

Lemma publish_none msg_data t s : _publish_message msg_data None t s = (Ok tt, s).
Proof. reflexivity. Qed.

Lemma events_add_event ev s : events (add_event ev s) = events s ++ [ev].
Proof. reflexivity. Qed.

Lemma publish_some_sends msg_data m t s :
  sends (events (snd (_publish_message msg_data (Some m) t s))) = sends (events s) ++ [m].
Proof.
  unfold _publish_message. unfold_eff. cbn [fst snd].
  destruct (getitem msg_data "uri") as [src|]; cbn [fst snd].
  - destruct (getitem (data m) "uri") as [dst|]; cbn [fst snd];
      rewrite ?events_add_event, ?sends_app; simpl; by rewrite ?app_nil_r.
  - rewrite ?events_add_event, ?sends_app; simpl; by rewrite ?app_nil_r.
Qed.

Lemma process_message_payload config l topic os w m w' :
  (l < length (heap w))%nat ->
  _process_message config l topic os w = (Ok (Some m), w') ->
  exists fname_in,
    let new_uri := Path.join (target_dir config) (Path.basename fname_in) in
    deref (heap w) l !! "uri" = Some (PStr fname_in) /\
    m = mkMessage topic "file" (length (heap w)) /\
    deref (heap w') (data m)
    = <["uid" := PStr (Path.basename new_uri)]>
        (<["uri" := PStr new_uri]> (deref (heap w) l)) /\
    (forall l', (l' < length (heap w))%nat -> deref (heap w') l' = deref (heap w) l').
Proof.
  intros Hl Hrun.
  destruct (process_message_needs config l topic os w m)
    as (fname_in & entry & opts & Huri & Hentry & Hopts).
  { by rewrite Hrun. }
  exists fname_in. cbv zeta. split; [exact Huri|].
  rewrite (process_message_unfold_entry _ _ _ _ _ _ _ _ Huri Hentry Hopts) in Hrun.
  pose proof (warp_heap opts fname_in (target_dir config) os (copied l w)) as Hh1.
  pose proof (warp_returns opts fname_in (target_dir config) os (copied l w)) as Hret.
  destruct (warp fname_in (target_dir config) opts os (copied l w))
    as [[[new_uri|]|e] w1]; try discriminate.
  cbn [fst snd] in *. rewrite <- (Hret new_uri eq_refl) in *. clear Hret.
  pose proof (add_overviews_heap new_uri (overviews config) os w1) as Hh2.
  destruct (add_overviews new_uri (overviews config) os w1) as [[[|]|e] w2];
    try discriminate.
  rewrite message_for_topic in Hrun.
  destruct (String.eqb topic ""); [discriminate|].
  cbn [fst snd] in *. injection Hrun as <- <-. cbn [data].
  assert (Hh : heap w2 = heap w ++ [deref (heap w) l]) by (by rewrite Hh2, Hh1).
  assert (Hlen : (length (heap w) < length (heap w2))%nat).
  { rewrite Hh, length_app. simpl. lia. }
  split; [reflexivity|]. split.
  - unfold assigned. cbn [heap].
    rewrite !deref_insert_eq by (rewrite ?length_insert; done).
    by rewrite Hh, deref_new.
  - intros l' Hl'. unfold assigned. cbn [heap].
    rewrite !deref_insert_ne by lia. by rewrite Hh, deref_old.
Qed.

(** C8: when [_process_message] returns a message, its payload is a fresh
    dictionary holding the inbound payload with [uri] set to the output path
    and [uid] to its base name; the other fields are those of the inbound
    payload; no dictionary that existed before is changed; and
    [_publish_message] sends that message, and sends nothing when there is
    none. *)
Theorem published_payload_is_updated_copy config l topic os w m w' :
  (l < length (heap w))%nat ->
  _process_message config l topic os w = (Ok (Some m), w') ->
  exists fname_in,
    let new_uri := Path.join (target_dir config) (Path.basename fname_in) in
    deref (heap w) l !! "uri" = Some (PStr fname_in) /\
    data m <> l /\
    deref (heap w') (data m)
    = <["uid" := PStr (Path.basename new_uri)]>
        (<["uri" := PStr new_uri]> (deref (heap w) l)) /\
    (forall k, k <> "uri" -> k <> "uid" ->
               deref (heap w') (data m) !! k = deref (heap w) l !! k) /\
    (forall l', (l' < length (heap w))%nat -> deref (heap w') l' = deref (heap w) l') /\
    (forall msg_data t s,
       sends (events (snd (_publish_message msg_data (Some (pickle (heap w') m)) t s)))
       = sends (events s) ++ [pickle (heap w') m] /\
       _publish_message msg_data None t s = (Ok tt, s)).
Proof.
  intros Hl Hrun.
  destruct (process_message_payload config l topic os w m w' Hl Hrun)
    as (fname_in & Huri & Hm & Hcopy & Hold).
  exists fname_in. cbv zeta in *. split; [exact Huri|].
  split; [subst m; cbn [data]; lia|]. split; [exact Hcopy|]. split; [|split].
  - intros k Hk1 Hk2. rewrite Hcopy. by rewrite !lookup_insert_ne by done.
  - exact Hold.
  - intros msg_data t s. split; [apply publish_some_sends|reflexivity].
Qed.

Lemma published_payload_is_updated_copy_witness :
  (0 < length (heap Scenario.world0))%nat /\
  exists m w',
    _process_message (Scenario.config None) 0%nat "/out/topic"
      Scenario.host_ok Scenario.world0 = (Ok (Some m), w') /\
    deref (heap w') (data m)
    = <["uid" := PStr "a.tif"]> (<["uri" := PStr "/out/a.tif"]> Scenario.payload) /\
    deref (heap w') 0 = Scenario.payload.
Proof.
  split; [simpl; lia|].
  destruct (_process_message (Scenario.config None) 0%nat "/out/topic"
              Scenario.host_ok Scenario.world0) as [r w'] eqn:Hrun.
  assert (Hr : r = Ok (Some (mkMessage "/out/topic" "file" 1%nat))).
  { apply (f_equal fst) in Hrun. simpl in Hrun. rewrite <- Hrun. vm_compute. reflexivity. }
  subst r. exists (mkMessage "/out/topic" "file" 1%nat), w'. split; [reflexivity|].
  destruct (published_payload_is_updated_copy (Scenario.config None) 0%nat "/out/topic"
              Scenario.host_ok Scenario.world0 _ w' ltac:(simpl; lia) Hrun)
    as (fname_in & Huri & _ & Hcopy & _ & Hold & _).
  assert (Hf : fname_in = "/in/a.tif").
  { assert (Huri' : deref (heap Scenario.world0) 0 !! "uri" = Some (PStr "/in/a.tif"))
      by (vm_compute; reflexivity).
    congruence. }
  subst fname_in. split.
  - exact Hcopy.
  - apply (Hold 0%nat). simpl. lia.
Defined.

(** Whatever the outcome, the dictionaries that existed before are left as
    they were. *)
Lemma process_message_old_heap config l topic os w l' :
  (l' < length (heap w))%nat ->
  deref (heap (snd (_process_message config l topic os w))) l' = deref (heap w) l'.
Proof.
  intros Hl'.
  assert (Hcopied : deref (heap (copied l w)) l' = deref (heap w) l')
    by (by apply deref_old).
  destruct (deref (heap w) l !! "uri") as [v|] eqn:Huri.
  2:{ unfold _process_message, dict_copy, dict_getitem. unfold_eff.
      cbn [heap trace time_reads]. rewrite deref_new, Huri. exact Hcopied. }
  destruct (config_getitem config (target_projection config)) as [entry|e] eqn:Hentry.
  2:{ unfold _process_message, dict_copy, dict_getitem. unfold_eff.
      cbn [heap trace time_reads]. rewrite deref_new, Huri, Hentry. exact Hcopied. }
  destruct v as [fname_in| |].
  2,3: unfold _process_message, dict_copy, dict_getitem; unfold_eff;
       cbn [heap trace time_reads]; rewrite deref_new, Huri, Hentry; exact Hcopied.
  destruct (as_options entry) as [opts|e] eqn:Hopts.
  2:{ unfold _process_message, dict_copy, dict_getitem. unfold_eff.
      cbn [heap trace time_reads]. rewrite deref_new, Huri, Hentry. cbn [as_path].
      rewrite Hopts. exact Hcopied. }
  rewrite (process_message_unfold_entry _ _ _ _ _ _ _ _ Huri Hentry Hopts).
  pose proof (warp_heap opts fname_in (target_dir config) os (copied l w)) as Hh1.
  destruct (warp fname_in (target_dir config) opts os (copied l w))
    as [[[new_uri|]|e] w1]; cbn [fst snd] in *; rewrite <- ?Hh1 in Hcopied; try done.
  pose proof (add_overviews_heap new_uri (overviews config) os w1) as Hh2.
  destruct (add_overviews new_uri (overviews config) os w1) as [[[|]|e] w2];
    cbn [fst snd] in *; rewrite <- ?Hh2 in Hcopied; try done.
  unfold assigned. cbn [heap].
  assert (length (heap w) < length (heap w2))%nat.
  { rewrite Hh2, Hh1. cbn [copied heap]. rewrite length_app. simpl. lia. }
  by rewrite !deref_insert_ne by lia.
Qed.

(** ** What the pool hands back *)

Lemma worker_run_result os task r :
  fst (worker_run os task) = Ok r ->
  fst r = task_data task /\
  match snd r with
  | None => True
  | Some m =>
      exists fname_in,
        let new_uri := Path.join (target_dir (task_config task)) (Path.basename fname_in) in
        task_data task !! "uri" = Some (PStr fname_in) /\
        m = mkMessage (task_topic task) "file"
              (<["uid" := PStr (Path.basename new_uri)]>
                 (<["uri" := PStr new_uri]> (task_data task)))
  end.
Proof.
  unfold worker_run, _process_message_worker. unfold_eff.
  set (w0 := mkWorld [task_data task] [] 0).
  pose proof (process_message_old_heap (task_config task) 0%nat (task_topic task) os w0 0%nat)
    as Hold.
  destruct (_process_message (task_config task) 0%nat (task_topic task) os w0)
    as [[pm|e] w] eqn:Hrun; cbn [fst snd] in *; [|discriminate].
  intros [= <-]. cbn [fst snd].
  rewrite Hold by (simpl; lia). split; [reflexivity|].
  destruct pm as [m|]; [|done]. cbn [option_map].
  assert (H0 : (0 < length (heap w0))%nat) by (simpl; lia).
  destruct (process_message_payload _ _ _ _ _ _ _ H0 Hrun)
    as (fname_in & Huri & Hm & Hcopy & _).
  exists fname_in. cbv zeta in *. split; [exact Huri|].
  unfold pickle. rewrite Hcopy. subst m. reflexivity.
Qed.

Lemma worker_run_result_ok os task r :
  fst (worker_run os task) = Ok r -> result_ok r.
Proof.
  intros Hr. destruct (worker_run_result os task r Hr) as [Hd Hm].
  unfold result_ok. destruct (snd r) as [m|]; [|done].
  destruct Hm as (fname_in & Huri & ->). rewrite Hd, Huri. cbn [data].
  split; [eauto|]. rewrite lookup_insert_ne by done. rewrite lookup_insert_eq. eauto.
Qed.

(** ** The loop: the environment *)

Lemma env_step_refl s : env_step s s.
Proof. by constructor. Qed.

Lemma env_step_trans s1 s2 s3 : env_step s1 s2 -> env_step s2 s3 -> env_step s1 s3.
Proof.
  intros [] []. constructor; try congruence; [lia|auto].
Qed.

Lemma pool_finish_spec f t s :
  exists s', pool_finish f t s = (Ok tt, s') /\ env_step s s' /\
             keep_looping s' = keep_looping s /\ events s' = events s.
Proof.
  unfold pool_finish. unfold_eff.
  destruct (pool s !! fst f) as [task|] eqn:Htask.
  2:{ exists s. split; [reflexivity|]. split; [apply env_step_refl|done]. }
  assert (Hlen : length (delete (fst f) (pool s)) = (length (pool s) - 1)%nat)
    by (apply length_delete; eauto).
  assert (Hpos : (0 < length (pool s))%nat).
  { apply lookup_lt_Some in Htask. lia. }
  destruct (fst (worker_run (snd f) task)) as [r|e] eqn:Hrun; cbn [fst snd].
  - eexists. split; [reflexivity|]. split; [|done].
    constructor; cbn; try reflexivity.
    + rewrite Hlen, length_app. simpl. lia.
    + intros Hok. apply Forall_app_2; [exact Hok|].
      constructor; [|constructor]. by apply (worker_run_result_ok (snd f) task).
  - eexists. split; [reflexivity|]. split; [|done].
    constructor; cbn; try reflexivity; [rewrite Hlen; lia|done].
Qed.

Lemma for_each_pool_finish_spec fs t s :
  exists s', for_each pool_finish fs t s = (Ok tt, s') /\ env_step s s' /\
             keep_looping s' = keep_looping s /\ events s' = events s.
Proof.
  revert s. induction fs as [|f fs IH]; intros s.
  - exists s. split; [reflexivity|]. split; [apply env_step_refl|done].
  - destruct (pool_finish_spec f t s) as (s1 & H1 & Hs1 & Hk1 & He1).
    destruct (IH s1) as (s2 & H2 & Hs2 & Hk2 & He2).
    exists s2. cbn [for_each]. unfold bind at 1. rewrite H1, H2.
    split; [reflexivity|]. split; [by eapply env_step_trans|]. split; congruence.
Qed.

Lemma deliver_spec t s :
  deliver t s = (Ok tt, delivered t s) /\
  env_step s (delivered t s) /\
  keep_looping (delivered t s) = keep_looping s && negb (sigterm t).
Proof.
  unfold delivered, deliver, _signal_handler, loop_log. unfold_eff.
  destruct (sigterm t); cbn [fst snd].
  - destruct (for_each_pool_finish_spec (finished t) t
                (set_keep_looping false
                   (add_event (Log "warper_loop" INFO
                      "Caught SIGTERM, stop receiving new messages." []) s)))
      as (s' & Hrun & Hstep & Hkeep & Hev).
    rewrite Hrun. cbn [fst snd]. split; [reflexivity|]. split.
    + destruct Hstep as [H1 H2 H3 _ _ _ H7 H8].
      constructor; [exact H1|exact H2|exact H3| | | |exact H7|exact H8].
      * rewrite Hev. cbn [events set_keep_looping add_event].
        rewrite submits_app. simpl. by rewrite app_nil_r.
      * rewrite Hev. cbn [events set_keep_looping add_event].
        rewrite pops_app. simpl. by rewrite app_nil_r.
      * rewrite Hev. cbn [events set_keep_looping add_event].
        rewrite sends_app. simpl. by rewrite app_nil_r.
    + rewrite Hkeep. cbn. by rewrite andb_false_r.
  - destruct (for_each_pool_finish_spec (finished t) t s)
      as (s' & Hrun & Hstep & Hkeep & Hev).
    rewrite Hrun. cbn [fst snd]. split; [reflexivity|].
    split; [exact Hstep|]. by rewrite Hkeep, andb_true_r.
Qed.

(** ** The loop: the drain *)

Lemma publish_spec msg_data pub_msg t s :
  result_ok (msg_data, pub_msg) ->
  exists s', _publish_message msg_data pub_msg t s = (Ok tt, s') /\ same_vars s s' /\
    pops (events s') = pops (events s) /\
    submits (events s') = submits (events s) /\
    sends (events s') = sends (events s) ++ option_list pub_msg.
Proof.
  unfold result_ok. cbn [fst snd]. destruct pub_msg as [m|].
  - intros [[src Hsrc] [dst Hdst]].
    unfold _publish_message, getitem. unfold_eff. rewrite Hsrc, Hdst. cbn [fst snd].
    eexists. split; [reflexivity|]. split; [by constructor|].
    cbn [events add_event option_list].
    rewrite !pops_app, !submits_app, !sends_app. simpl. by rewrite !app_nil_r.
  - intros _. exists s. split; [reflexivity|]. split; [by constructor|].
    simpl. by rewrite app_nil_r.
Qed.

Lemma while_results_spec n t s :
  (length (results s) <= n)%nat ->
  Forall result_ok (results s) ->
  exists s', while_results n t s = (Ok tt, s') /\ drained s s'.
Proof.
  revert s. induction n as [|n IH]; intros s Hlen Hok.
  - destruct (results s) as [|r rest] eqn:Hres; [|simpl in Hlen; lia].
    exists s. split; [reflexivity|].
    constructor; rewrite ?Hres; simpl; rewrite ?app_nil_r; try done. lia.
  - cbn [while_results]. unfold_eff.
    destruct (results s) as [|[msg_data pub_msg] rest] eqn:Hres.
    { exists s. split; [reflexivity|].
      constructor; rewrite ?Hres; simpl; rewrite ?app_nil_r; try done. lia. }
    apply Forall_cons in Hok as [Hr Hrest].
    destruct (publish_spec msg_data pub_msg t
                (add_event (Pop (msg_data, pub_msg)) (set_results rest s)) Hr)
      as (s1 & Hpub & Hvars & Hpops & Hsubs & Hsends).
    rewrite Hpub. destruct Hvars as [Hk Hl Hrs Hq Hsi Hp]. cbn in Hk, Hl, Hrs, Hq, Hsi, Hp.
    destruct (IH (set_queued_images (queued_images s1 - 1) s1)) as (s' & Hrun & Hdr).
    { cbn. rewrite Hrs. simpl in Hlen. lia. }
    { cbn. by rewrite Hrs. }
    rewrite Hrun. exists s'. split; [reflexivity|].
    destruct Hdr as [D1 D2 D3 D4 D5 D6 D7 D8 D9].
    cbn [keep_looping latest_message_time time_since_last_msg pool results
         queued_images events set_queued_images] in D1, D2, D3, D4, D6, D7, D8, D9.
    constructor; rewrite ?Hres; try congruence.
    + rewrite D6, Hq, Hrs. cbn [length]. lia.
    + rewrite D7, Hpops, Hrs. cbn [events add_event set_results].
      rewrite pops_app. simpl. by rewrite <- app_assoc.
    + rewrite D8, Hsends, Hrs. cbn [events add_event set_results].
      rewrite sends_app. simpl. rewrite app_nil_r, <- app_assoc.
      by destruct pub_msg.
    + rewrite D9, Hsubs. cbn [events add_event set_results].
      rewrite submits_app. simpl. by rewrite app_nil_r.
Qed.

Lemma drain_spec t s :
  Forall result_ok (results s) ->
  exists s', drain t s = (Ok tt, s') /\ drained s s'.
Proof.
  intros Hok. unfold drain. unfold_eff. by apply while_results_spec.
Qed.

Lemma drain_empty t s : results s = [] -> drain t s = (Ok tt, s).
Proof. intros Hres. unfold drain. unfold_eff. rewrite Hres. reflexivity. Qed.

(** C9: a drain empties the buffer, taking and forwarding every result that
    was in it and counting it off; a second drain, with nothing finished in
    between, takes nothing and leaves the state as it is. *)
Theorem drain_twice t t' s :
  Forall result_ok (results s) ->
  exists s1,
    drain t s = (Ok tt, s1) /\
    results s1 = [] /\
    pops (events s1) = pops (events s) ++ results s /\
    sends (events s1) = sends (events s) ++ omap snd (results s) /\
    queued_images s1 = queued_images s - Z.of_nat (length (results s)) /\
    drain t' s1 = (Ok tt, s1).
Proof.
  intros Hok. destruct (drain_spec t s Hok) as (s1 & Hrun & Hdr).
  exists s1. destruct Hdr. repeat split; try done. by apply drain_empty.
Qed.

Lemma drain_twice_witness :
  Forall result_ok (results DrainExample.state) /\
  exists s1,
    drain DrainExample.tick DrainExample.state = (Ok tt, s1) /\
    results s1 = [] /\
    sends (events s1) = [DrainExample.sent] /\
    queued_images s1 = 0 /\
    drain DrainExample.tick s1 = (Ok tt, s1).
Proof.
  assert (Hok : Forall result_ok (results DrainExample.state)).
  { repeat constructor; vm_compute; eauto. }
  split; [exact Hok|].
  destruct (drain_twice DrainExample.tick DrainExample.tick DrainExample.state Hok)
    as (s1 & Hrun & Hres & _ & Hsends & Hq & Hagain).
  exists s1. repeat split; assumption.
Defined.

(** ** The loop: one iteration *)

Lemma float_gt_true x y : negb (Qle_bool x y) = true <-> (y < x)%Q.
Proof.
  rewrite negb_true_iff. split.
  - intros Hle. apply Qnot_le_lt. intros H%Qle_bool_iff. congruence.
  - intros Hlt. destruct (Qle_bool x y) eqn:Hle; [|done].
    apply Qle_bool_iff in Hle. by apply Qlt_not_le in Hlt.
Qed.

Lemma measure_idle_spec restart_timeout t s :
  measure_idle restart_timeout t s = (Ok tt, stamped restart_timeout t s).
Proof. unfold measure_idle, stamped. by destruct (truthy restart_timeout). Qed.

Lemma check_idle_busy restart_timeout t s :
  queued_images s <> 0 -> check_idle restart_timeout t s = (Ok Continue, s).
Proof.
  intros Hq. unfold check_idle. unfold_eff.
  by destruct (Z.eqb_spec (queued_images s) 0).
Qed.

Lemma check_idle_sigterm restart_timeout t s :
  queued_images s = 0 -> keep_looping s = false ->
  check_idle restart_timeout t s = (Ok (Return (Some SIGTERM)), s).
Proof.
  intros Hq Hk. unfold check_idle. unfold_eff. by rewrite Hq, Hk.
Qed.

Lemma check_idle_unbound restart_timeout t s :
  queued_images s = 0 -> keep_looping s = true -> time_since_last_msg s = None ->
  check_idle restart_timeout t s = (Raise (UnboundLocalError "time_since_last_msg"), s).
Proof.
  intros Hq Hk Hsince. unfold check_idle. unfold_eff. by rewrite Hq, Hk, Hsince.
Qed.

Lemma check_idle_timeout timeout since t s :
  queued_images s = 0 -> keep_looping s = true -> time_since_last_msg s = Some since ->
  check_idle (Some timeout) t s =
  if negb (Qle_bool since timeout)
  then (Ok (Return None),
        add_event (Log "warper_loop" DEBUG "%.0f minutes since last message" [AFloat since]) s)
  else (Ok Continue, s).
Proof.
  intros Hq Hk Hsince. unfold check_idle, loop_log. unfold_eff.
  rewrite Hq, Hk, Hsince. cbn. by destruct (Qle_bool since timeout).
Qed.

Lemma dispatch_spec config pub_topic t s :
  dispatch config pub_topic t s = (Ok Continue, dispatched config pub_topic t s).
Proof.
  unfold dispatch, dispatched, apply_async, loop_log. unfold_eff.
  destruct (msg t) as [m|]; [|reflexivity].
  unfold set_queued_images, set_pool, add_event, set_latest_message_time. cbn.
  by rewrite <- app_assoc.
Qed.

Lemma iteration_unfold config pub_topic t s :
  Forall result_ok (results s) ->
  iteration config pub_topic t s =
  match check_idle (restart_timeout config) t (checked config t s) with
  | (Ok Continue, s') => (Ok Continue, dispatched config pub_topic t s')
  | (Ok (Return v), s') => (Ok (Return v), s')
  | (Raise e, s') => (Raise e, s')
  end.
Proof.
  intros Hok. unfold iteration, loop_body, checked.
  destruct (deliver_spec t s) as (Hdel & Hstep & _).
  destruct (drain_spec t (delivered t s)) as (s2 & Hdrain & _).
  { by apply (env_ok _ _ Hstep). }
  unfold bind at 1. rewrite Hdel. unfold bind at 1. rewrite Hdrain.
  unfold bind at 1. rewrite measure_idle_spec. unfold bind at 1. cbn [snd].
  destruct (check_idle (restart_timeout config) t (stamped (restart_timeout config) t s2))
    as [[[|v]|e] s3]; try reflexivity.
  apply dispatch_spec.
Qed.

Lemma checked_spec config t s :
  Forall result_ok (results s) -> at_check config t s (checked config t s).
Proof.
  intros Hok. unfold checked.
  destruct (deliver_spec t s) as (_ & Hstep & Hkeep).
  destruct (drain_spec t (delivered t s)) as (s2 & Hdrain & Hdr).
  { by apply (env_ok _ _ Hstep). }
  rewrite Hdrain. cbn [snd]. destruct Hstep, Hdr.
  unfold stamped. destruct (truthy (restart_timeout config)) eqn:Htruthy;
    constructor; rewrite ?Htruthy;
    cbn [set_time_since_last_msg keep_looping latest_message_time results
         queued_images time_since_last_msg pool events];
    congruence.
Qed.

Lemma check_idle_type_error since t s :
  queued_images s = 0 -> keep_looping s = true -> time_since_last_msg s = Some since ->
  check_idle None t s = (Raise TypeError, s).
Proof.
  intros Hq Hk Hsince. unfold check_idle. unfold_eff. by rewrite Hq, Hk, Hsince.
Qed.

Lemma iteration_ending config pub_topic t s :
  Forall result_ok (results s) ->
  ending config pub_topic t (checked config t s) (iteration config pub_topic t s).
Proof.
  intros Hok. rewrite (iteration_unfold _ _ _ _ Hok).
  set (c := checked config t s).
  destruct (Z.eq_dec (queued_images c) 0) as [Hq|Hq].
  2:{ rewrite check_idle_busy by done. by apply end_busy. }
  destruct (keep_looping c) eqn:Hk.
  2:{ rewrite check_idle_sigterm by done. by apply end_sigterm. }
  destruct (time_since_last_msg c) as [since|] eqn:Hsince.
  2:{ rewrite check_idle_unbound by done. by apply end_unbound. }
  destruct (restart_timeout config) as [timeout|] eqn:Hrt.
  2:{ rewrite (check_idle_type_error since) by done. by apply (end_type_error _ _ _ _ since). }
  rewrite (check_idle_timeout timeout since) by done.
  destruct (negb (Qle_bool since timeout)) eqn:Hlate.
  - apply float_gt_true in Hlate. by apply (end_restart _ _ _ _ since timeout).
  - apply (end_wait _ _ _ _ since timeout); try done.
    intros Hlt%float_gt_true. congruence.
Qed.

(** ** The loop: invariants *)

Lemma loop_init_inv config now pub :
  length (submits pub) = length (pops pub) ->
  loop_inv config (loop_init now [] pub).
Proof.
  intros Hbal. constructor; unfold loop_init;
    cbn [queued_images events pool results time_since_last_msg length];
    [lia|lia|constructor|done].
Qed.

Lemma checked_inv config t s :
  loop_inv config s -> loop_inv config (checked config t s).
Proof.
  intros [Hbal Hpend Hres Hsince].
  destruct (checked_spec config t s Hres) as [_ _ Cr Cq Cs Cp Csub Cpop _].
  destruct (deliver_spec t s) as (_ & [_ _ _ _ _ _ Hsize _] & _).
  constructor.
  - rewrite Cq, Csub, Cpop, length_app. lia.
  - rewrite Cr, Cp, Cq. cbn [length]. lia.
  - rewrite Cr. constructor.
  - intros Hf. rewrite Cs, Hf. by apply Hsince.
Qed.

Lemma restarting_inv config since c :
  loop_inv config c -> loop_inv config (restarting since c).
Proof.
  intros [Hbal Hpend Hres Hsince]. constructor; cbn; try done.
  rewrite submits_app, pops_app. simpl. by rewrite !app_nil_r.
Qed.

Lemma dispatched_inv config pub_topic t c :
  loop_inv config c -> loop_inv config (dispatched config pub_topic t c).
Proof.
  intros [Hbal Hpend Hres Hsince]. unfold dispatched.
  destruct (msg t) as [m|]; [|by constructor].
  constructor; cbn; try done.
  - rewrite submits_app, pops_app. simpl. rewrite app_nil_r, length_app. simpl. lia.
  - rewrite length_app. simpl. lia.
Qed.

Lemma late_signal_spec t s :
  env_step s (snd (late_signal t s)) /\
  pool (snd (late_signal t s)) = pool s /\
  results (snd (late_signal t s)) = results s /\
  keep_looping (snd (late_signal t s)) = keep_looping s && negb (sigterm_late t).
Proof.
  unfold late_signal, _signal_handler, loop_log. unfold_eff.
  destruct (sigterm_late t); cbn [fst snd].
  - split; [|by rewrite andb_false_r].
    constructor; cbn; try done; rewrite ?submits_app, ?pops_app, ?sends_app; simpl;
      by rewrite app_nil_r.
  - split; [apply env_step_refl|]. by rewrite andb_true_r.
Qed.

Lemma late_signal_inv config t s :
  loop_inv config s -> loop_inv config (snd (late_signal t s)).
Proof.
  intros [Hbal Hpend Hres Hsince].
  destruct (late_signal_spec t s) as ([_ Hq Hs Hsub Hpop _ _ _] & Hp & Hr & _).
  constructor; rewrite ?Hq, ?Hs, ?Hsub, ?Hpop, ?Hp, ?Hr; assumption.
Qed.

Lemma iteration_inv config pub_topic t s r s' :
  loop_inv config s ->
  iteration config pub_topic t s = (r, s') ->
  loop_inv config s'.
Proof.
  intros Hinv Hrun.
  pose proof (iteration_ending config pub_topic t s (inv_results _ _ Hinv)) as Hend.
  pose proof (checked_inv config t s Hinv) as Hc.
  rewrite Hrun in Hend.
  inversion Hend; subst; auto using dispatched_inv, restarting_inv.
Qed.

Lemma iteration_return_idle config pub_topic t s v s' :
  Forall result_ok (results s) ->
  iteration config pub_topic t s = (Ok (Return v), s') ->
  queued_images s' = 0.
Proof.
  intros Hok Hrun.
  pose proof (iteration_ending config pub_topic t s Hok) as Hend.
  rewrite Hrun in Hend. inversion Hend; subst; done.
Qed.

Lemma for_recv_inv config pub_topic ticks s :
  loop_inv config s -> loop_inv config (state_of (for_recv config pub_topic ticks s)).
Proof.
  revert s. induction ticks as [|t ticks IH]; intros s Hinv; [done|].
  cbn [for_recv].
  destruct (iteration config pub_topic t s) as [[[|v]|e] s'] eqn:Hrun;
    pose proof (iteration_inv _ _ _ _ _ _ Hinv Hrun);
    cbn [state_of]; auto using late_signal_inv.
Qed.

Lemma for_recv_returned_idle config pub_topic ticks s v s' :
  loop_inv config s ->
  for_recv config pub_topic ticks s = Returned v s' ->
  queued_images s' = 0.
Proof.
  revert s. induction ticks as [|t ticks IH]; intros s Hinv; [done|].
  cbn [for_recv].
  destruct (iteration config pub_topic t s) as [[[|v']|e] s1] eqn:Hrun; try done.
  - apply IH. apply late_signal_inv. by eapply iteration_inv.
  - intros [= <- <-]. destruct (late_signal_spec t s1) as ([_ -> _ _ _ _ _ _] & _).
    eapply iteration_return_idle; [|exact Hrun]. by destruct Hinv.
Qed.

Lemma warper_loop_inv config pub pub_topic feed :
  length (submits pub) = length (pops pub) ->
  loop_inv config (state_of (_warper_loop config pub pub_topic [] feed)).
Proof.
  intros Hbal. unfold _warper_loop. apply for_recv_inv. by apply loop_init_inv.
Qed.

Lemma starting_balanced pub :
  length (submits pub) = length (pops pub) ->
  length (submits (pub ++ [Log "gdal_warper" DEBUG "Starting warper loop." []]))
  = length (pops (pub ++ [Log "gdal_warper" DEBUG "Starting warper loop." []])).
Proof. intros Hbal. rewrite submits_app, pops_app. simpl. by rewrite !app_nil_r. Qed.

(** When a call of [_warper_loop] returns, the pool has nothing left to do
    and every task handed over has been taken back. *)
Lemma warper_loop_returned config pub pub_topic feed v s :
  length (submits pub) = length (pops pub) ->
  _warper_loop config pub pub_topic [] feed = Returned v s ->
  pool s = [] /\ length (submits (events s)) = length (pops (events s)).
Proof.
  intros Hbal Hrun.
  pose proof (warper_loop_inv config pub pub_topic feed Hbal) as Hinv.
  rewrite Hrun in Hinv. cbn [state_of] in Hinv.
  assert (Hq : queued_images s = 0).
  { unfold _warper_loop in Hrun.
    eapply for_recv_returned_idle; [|exact Hrun]. by apply loop_init_inv. }
  destruct Hinv as [Hb Hp _ _]. rewrite Hq in Hb, Hp. split; [|lia].
  destruct (pool s); [done|]. cbn [length] in Hp. lia.
Qed.

(** Every state [main] finds the loop in satisfies the invariant. *)
Lemma main_loop_inv config pub_topic feeds pub s :
  length (submits pub) = length (pops pub) ->
  main_loop config pub_topic feeds pub [] = MainRunning s ->
  loop_inv config s.
Proof.
  revert pub. induction feeds as [|feed rest IH]; intros pub Hbal; [done|].
  cbn [main_loop].
  pose proof (starting_balanced pub Hbal) as Hbal'.
  set (pub' := pub ++ [Log "gdal_warper" DEBUG "Starting warper loop." []]) in *.
  pose proof (warper_loop_inv config pub' pub_topic feed Hbal') as Hinv.
  destruct (_warper_loop config pub' pub_topic [] feed) as [s0|v s0|e s0] eqn:Hrun.
  - intros [= <-]. exact Hinv.
  - destruct (warper_loop_returned _ _ _ _ _ _ Hbal' Hrun) as [Hpool Hb].
    destruct v as [[]|]; [done|]. rewrite Hpool. by apply IH.
  - done.
Qed.

Lemma main_inv config pub_topic feeds s :
  main config pub_topic feeds = MainRunning s -> loop_inv config s.
Proof. apply main_loop_inv. reflexivity. Qed.

(** C6: in every state [main] finds the loop in, and in the state in which
    the count is tested after the drain, [queued_images] is not negative and
    is the number of tasks handed to the pool minus the number of results
    taken from the buffer. *)
Theorem queued_images_counts_outstanding config pub_topic feeds s :
  main config pub_topic feeds = MainRunning s ->
  (0 <= queued_images s /\
   queued_images s
   = Z.of_nat (length (submits (events s))) - Z.of_nat (length (pops (events s)))) /\
  (forall t,
     let c := checked config t s in
     0 <= queued_images c /\
     queued_images c
     = Z.of_nat (length (submits (events c))) - Z.of_nat (length (pops (events c)))) /\
  (forall t s',
     iteration config pub_topic t s = (Ok Continue, s') ->
     let c := checked config t s in
     queued_images c = queued_images s - Z.of_nat (length (results (delivered t s))) /\
     pops (events c) = pops (events s) ++ results (delivered t s) /\
     queued_images s' = queued_images c + match msg t with Some _ => 1 | None => 0 end /\
     submits (events s')
     = submits (events c)
       ++ match msg t with
          | Some m => [mkTask config (data m) pub_topic]
          | None => []
          end).
Proof.
  intros Hmain. pose proof (main_inv _ _ _ _ Hmain) as Hinv.
  split; [|split].
  - destruct Hinv as [Hb Hp _ _]. split; [lia|exact Hb].
  - intros t c. subst c. destruct (checked_inv config t s Hinv) as [Hb Hp _ _].
    split; [lia|exact Hb].
  - intros t s' Hrun c.
    destruct (checked_spec config t s (inv_results _ _ Hinv)) as [_ _ _ Cq _ _ _ Cpop _].
    split; [exact Cq|]. split; [exact Cpop|].
    pose proof (iteration_ending config pub_topic t s (inv_results _ _ Hinv)) as Hend.
    rewrite Hrun in Hend. fold c in Hend.
    assert (Hs' : s' = dispatched config pub_topic t c) by (inversion Hend; done).
    subst s'. clearbody c. unfold dispatched.
    destruct (msg t) as [m|]; cbn [queued_images events].
    + split; [lia|]. by rewrite submits_app.
    + split; [lia|]. by rewrite app_nil_r.
Qed.

Lemma queued_images_counts_outstanding_witness :
  exists s,
    main (Scenario.config (Some 5%Q)) LoopExample.topic [LoopExample.busy] = MainRunning s /\
    queued_images s = 1 /\
    0 <= queued_images s /\
    queued_images s
    = Z.of_nat (length (submits (events s))) - Z.of_nat (length (pops (events s))).
Proof.
  destruct (main (Scenario.config (Some 5%Q)) LoopExample.topic [LoopExample.busy])
    as [s|pub|e pub|pub workers] eqn:Hmain;
    try (exfalso; vm_compute in Hmain; discriminate Hmain).
  exists s. split; [reflexivity|].
  destruct (queued_images_counts_outstanding _ _ _ _ Hmain) as ((Hpos & Hbal) & _).
  split; [|split; assumption].
  vm_compute in Hmain. injection Hmain as <-. reflexivity.
Defined.

(** ** The loop: after SIGTERM *)

Lemma dispatched_keep config pub_topic t c :
  keep_looping (dispatched config pub_topic t c) = keep_looping c /\
  results (dispatched config pub_topic t c) = results c /\
  queued_images c <= queued_images (dispatched config pub_topic t c) /\
  latest_message_time (dispatched config pub_topic t c)
  = match msg t with Some _ => now_recv t | None => latest_message_time c end.
Proof.
  unfold dispatched. destruct (msg t); cbn; repeat split; lia.
Qed.

Lemma iteration_after_sigterm config pub_topic t s :
  loop_inv config s ->
  keep_looping s = false \/ sigterm t = true ->
  let c := checked config t s in
  (queued_images c = 0 ->
   iteration config pub_topic t s = (Ok (Return (Some SIGTERM)), c)) /\
  (queued_images c <> 0 ->
   iteration config pub_topic t s = (Ok Continue, dispatched config pub_topic t c) /\
   keep_looping (dispatched config pub_topic t c) = false /\
   0 < queued_images (dispatched config pub_topic t c) /\
   results (dispatched config pub_topic t c) = []).
Proof.
  intros Hinv Hsig c.
  pose proof (iteration_ending config pub_topic t s (inv_results _ _ Hinv)) as Hend.
  destruct (checked_spec config t s (inv_results _ _ Hinv)) as [Ck _ Cr _ _ _ _ _ _].
  destruct (checked_inv config t s Hinv) as [_ Hpend _ _].
  fold c in Hend, Ck, Cr, Hpend.
  assert (Hkeep : keep_looping c = false).
  { rewrite Ck. destruct Hsig as [->| ->]; [done|by rewrite andb_false_r]. }
  destruct (dispatched_keep config pub_topic t c) as (Dk & Dr & Dq & _).
  clearbody c. split; intros Hq.
  - inversion Hend; subst; congruence.
  - inversion Hend; subst; try congruence.
    split; [reflexivity|]. split; [congruence|]. split; [lia|congruence].
Qed.

Lemma for_recv_after_sigterm config pub_topic more t s :
  loop_inv config s ->
  keep_looping s = false \/ sigterm t = true ->
  match for_recv config pub_topic (t :: more) s with
  | Running s' => keep_looping s' = false /\ 0 < queued_images s' /\ results s' = []
  | Returned v s' => v = Some SIGTERM /\ queued_images s' = 0
  | Raised _ _ => False
  end.
Proof.
  revert t s. induction more as [|t' more IH]; intros t s Hinv Hsig;
    destruct (iteration_after_sigterm config pub_topic t s Hinv Hsig) as [Hzero Hbusy];
    cbn [for_recv] in *;
    destruct (Z.eq_dec (queued_images (checked config t s)) 0) as [Hq|Hq].
  - rewrite (Hzero Hq).
    destruct (late_signal_spec t (checked config t s)) as ([_ -> _ _ _ _ _ _] & _).
    split; [reflexivity|exact Hq].
  - destruct (Hbusy Hq) as (-> & Hk & Hpos & Hres).
    destruct (late_signal_spec t (dispatched config pub_topic t (checked config t s)))
      as ([_ -> _ _ _ _ _ _] & _ & -> & ->).
    by rewrite Hk.
  - rewrite (Hzero Hq).
    destruct (late_signal_spec t (checked config t s)) as ([_ -> _ _ _ _ _ _] & _).
    split; [reflexivity|exact Hq].
  - destruct (Hbusy Hq) as (Hrun & Hk & _ & _). rewrite Hrun.
    destruct (late_signal_spec t (dispatched config pub_topic t (checked config t s)))
      as (_ & _ & _ & Hlate).
    apply IH; [|left; by rewrite Hlate, Hk].
    apply late_signal_inv. by eapply iteration_inv.
Qed.

(** Once the call of the loop that is running has handled SIGTERM before the
    test of an iteration, an iteration that finds work outstanding after its
    drain goes on, with an empty buffer; the iteration that finds none
    returns [SIGTERM]; the loop never returns to restart and never raises;
    and [main] stops on that value without calling the loop again. *)
Theorem sigterm_drains_then_terminates config pub_topic feeds s t more :
  main config pub_topic feeds = MainRunning s ->
  keep_looping s = false \/ sigterm t = true ->
  match for_recv config pub_topic (t :: more) s with
  | Running s' => keep_looping s' = false /\ 0 < queued_images s' /\ results s' = []
  | Returned v s' => v = Some SIGTERM /\ queued_images s' = 0
  | Raised _ _ => False
  end /\
  (queued_images (checked config t s) = 0 ->
   for_recv config pub_topic (t :: more) s
   = Returned (Some SIGTERM) (snd (late_signal t (checked config t s)))) /\
  (forall feed rest pub workers s',
     _warper_loop config (pub ++ [Log "gdal_warper" DEBUG "Starting warper loop." []])
       pub_topic workers feed = Returned (Some SIGTERM) s' ->
     main_loop config pub_topic (feed :: rest) pub workers
     = MainStopped (events s' ++ [Log "gdal_warper" INFO "GDAL warper stopped." []])).
Proof.
  intros Hmain Hsig. pose proof (main_inv _ _ _ _ Hmain) as Hinv.
  split; [by apply for_recv_after_sigterm|]. split.
  - intros Hq. cbn [for_recv].
    destruct (iteration_after_sigterm config pub_topic t s Hinv Hsig) as [Hzero _].
    by rewrite (Hzero Hq).
  - intros feed rest pub workers s' Hrun. cbn [main_loop]. by rewrite Hrun.
Qed.

Lemma sigterm_drains_then_terminates_witness :
  exists s,
    main (Scenario.config (Some 5%Q)) LoopExample.topic [LoopExample.busy] = MainRunning s /\
    sigterm LoopExample.stop = true /\
    match for_recv (Scenario.config (Some 5%Q)) LoopExample.topic
            [LoopExample.stop; LoopExample.last_done] s with
    | Running s' => keep_looping s' = false /\ 0 < queued_images s' /\ results s' = []
    | Returned v s' => v = Some SIGTERM /\ queued_images s' = 0
    | Raised _ _ => False
    end.
Proof.
  destruct (main (Scenario.config (Some 5%Q)) LoopExample.topic [LoopExample.busy])
    as [s|pub|e pub|pub workers] eqn:Hmain;
    try (exfalso; vm_compute in Hmain; discriminate Hmain).
  exists s. split; [reflexivity|]. split; [reflexivity|].
  exact (proj1 (sigterm_drains_then_terminates _ _ _ s LoopExample.stop
                  [LoopExample.last_done] Hmain (or_intror eq_refl))).
Defined.

Example sigterm_scenario :
  match main (Scenario.config (Some 5%Q)) LoopExample.topic [LoopExample.busy] with
  | MainRunning s =>
      (match for_recv (Scenario.config (Some 5%Q)) LoopExample.topic [LoopExample.stop] s with
       | Running s' => queued_images s' = 1
       | _ => False
       end) /\
      (match for_recv (Scenario.config (Some 5%Q)) LoopExample.topic
               [LoopExample.stop; LoopExample.last_done] s with
       | Returned v s' => v = Some SIGTERM /\ length (sends (events s')) = 2%nat
       | _ => False
       end)
  | _ => False
  end.
Proof. vm_compute. repeat split. Qed.

(** ** SIGTERM while the loop returns to restart *)

Lemma iteration_unsignalled config pub_topic t s :
  loop_inv config s ->
  keep_looping s = true ->
  sigterm t = false ->
  fst (iteration config pub_topic t s) <> Ok (Return (Some SIGTERM)) /\
  keep_looping (snd (iteration config pub_topic t s)) = true.
Proof.
  intros Hinv Hkeep Hsig.
  pose proof (iteration_ending config pub_topic t s (inv_results _ _ Hinv)) as Hend.
  destruct (checked_spec config t s (inv_results _ _ Hinv)) as [Ck _ _ _ _ _ _ _ _].
  rewrite Hkeep, Hsig in Ck. cbn [negb andb] in Ck.
  destruct (dispatched_keep config pub_topic t (checked config t s)) as (Dk & _).
  inversion Hend; cbn [fst snd]; split; try done; congruence.
Qed.

Lemma for_recv_unsignalled config pub_topic ticks s :
  loop_inv config s ->
  keep_looping s = true ->
  Forall (fun t => sigterm t = false /\ sigterm_late t = false) ticks ->
  match for_recv config pub_topic ticks s with
  | Running s' => keep_looping s' = true
  | Returned v _ => v = None
  | Raised _ _ => True
  end.
Proof.
  revert s. induction ticks as [|t ticks IH]; intros s Hinv Hkeep Hticks; [done|].
  apply Forall_cons in Hticks as [[Hsig Hlate] Hticks]. cbn [for_recv].
  destruct (iteration_unsignalled config pub_topic t s Hinv Hkeep Hsig) as [Hret Hk].
  destruct (iteration config pub_topic t s) as [[[|[[]|]]|e] s1] eqn:Hrun;
    cbn [fst snd] in *; try done.
  destruct (late_signal_spec t s1) as (_ & _ & _ & Hl).
  apply IH; [|by rewrite Hl, Hk, Hlate|exact Hticks].
  apply late_signal_inv. by eapply iteration_inv.
Qed.

Lemma main_loop_unsignalled config pub_topic feeds pub :
  length (submits pub) = length (pops pub) ->
  Forall unsignalled feeds ->
  match main_loop config pub_topic feeds pub [] with
  | MainStopped _ => False
  | _ => True
  end.
Proof.
  revert pub. induction feeds as [|feed feeds IH]; intros pub Hbal Hfeeds; [done|].
  apply Forall_cons in Hfeeds as [Hfeed Hfeeds]. cbn [main_loop].
  pose proof (starting_balanced pub Hbal) as Hbal'.
  pose proof (warper_loop_returned config
                (pub ++ [Log "gdal_warper" DEBUG "Starting warper loop." []])
                pub_topic feed) as Hret.
  pose proof (for_recv_unsignalled config pub_topic (ticks feed)
                (loop_init (start_now feed) []
                   (pub ++ [Log "gdal_warper" DEBUG "Starting warper loop." []]))
                (loop_init_inv config _ _ Hbal') eq_refl Hfeed) as Hloop.
  fold (_warper_loop config (pub ++ [Log "gdal_warper" DEBUG "Starting warper loop." []])
          pub_topic [] feed) in Hloop.
  destruct (_warper_loop config
              (pub ++ [Log "gdal_warper" DEBUG "Starting warper loop." []])
              pub_topic [] feed) as [s|[[]|] s|e s] eqn:Hrun; try done.
  destruct (Hret _ _ Hbal' eq_refl) as [Hpool Hbal'']. rewrite Hpool. by apply IH.
Qed.

(** C4 (defect): a SIGTERM that the handler takes after an iteration has
    tested [keep_looping], when that iteration returns to restart, is
    forgotten.  The call returns [None] with its [keep_looping] set to
    [False] and the handler's line in the log; [main] calls the loop again,
    the new call starts with [keep_looping = True] and a handler of its own,
    and as long as no other SIGTERM comes [main] never stops. *)
Theorem sigterm_lost_at_restart config pub_topic feeds s t rest :
  main config pub_topic feeds = MainRunning s ->
  fst (iteration config pub_topic t s) = Ok (Return None) ->
  sigterm_late t = true ->
  Forall unsignalled rest ->
  let s' := snd (late_signal t (snd (iteration config pub_topic t s))) in
  for_recv config pub_topic [t] s = Returned None s' /\
  keep_looping s' = false /\
  last (events s') = Some caught /\
  match main_loop config pub_topic rest (events s') (pool s') with
  | MainStopped _ => False
  | _ => True
  end.
Proof.
  intros Hmain Hret Hlate Hrest s'. pose proof (main_inv _ _ _ _ Hmain) as Hinv.
  assert (Hrun : for_recv config pub_topic [t] s = Returned None s').
  { cbn [for_recv]. subst s'.
    destruct (iteration config pub_topic t s) as [[[|v]|e] s1]; cbn [fst snd] in *;
      congruence. }
  split; [exact Hrun|].
  destruct (late_signal_spec t (snd (iteration config pub_topic t s)))
    as (_ & Hpool & _ & Hkeep).
  fold s' in Hpool, Hkeep. split; [by rewrite Hkeep, Hlate, andb_false_r|]. split.
  - subst s'. unfold late_signal, _signal_handler, loop_log. unfold_eff.
    rewrite Hlate. cbn [fst snd events set_keep_looping add_event]. apply last_snoc.
  - pose proof (for_recv_inv config pub_topic [t] s Hinv) as Hinv'.
    pose proof (for_recv_returned_idle config pub_topic [t] s None s' Hinv Hrun) as Hq.
    rewrite Hrun in Hinv'. cbn [state_of] in Hinv'.
    destruct Hinv' as [Hb Hp _ _]. rewrite Hq in Hb, Hp.
    assert (Hnil : pool s' = []).
    { destruct (pool s'); [done|]. cbn [length] in Hp. lia. }
    rewrite Hnil. apply main_loop_unsignalled; [lia|exact Hrest].
Qed.

Lemma sigterm_lost_at_restart_witness :
  match main RestartExample.config LoopExample.topic
          [RestartExample.signalled; RestartExample.next_call] with
  | MainRunning s =>
      In caught (events s) /\ keep_looping s = true /\ length (sends (events s)) = 2%nat
  | _ => False
  end /\
  exists s s',
    main RestartExample.config LoopExample.topic [RestartExample.worked] = MainRunning s /\
    for_recv RestartExample.config LoopExample.topic
      [mkTick false [] None (6 * Scenario.minute) (6 * Scenario.minute) true] s
    = Returned None s' /\
    keep_looping s' = false.
Proof.
  split; [vm_compute; repeat split; tauto|].
  destruct (main RestartExample.config LoopExample.topic [RestartExample.worked])
    as [s|pub|e pub|pub workers] eqn:Hmain;
    try (exfalso; vm_compute in Hmain; discriminate Hmain).
  destruct (sigterm_lost_at_restart _ _ _ s
              (mkTick false [] None (6 * Scenario.minute) (6 * Scenario.minute) true)
              [RestartExample.next_call] Hmain)
    as (Hrun & Hkeep & _).
  - pose proof Hmain as Hv. vm_compute in Hv. injection Hv as <-. vm_compute. reflexivity.
  - reflexivity.
  - repeat constructor.
  - eauto.
Defined.

(** ** The loop: idle without a timeout *)

Lemma iteration_idle_unbound config pub_topic t s :
  loop_inv config s ->
  truthy (restart_timeout config) = false ->
  queued_images (checked config t s) = 0 ->
  keep_looping (checked config t s) = true ->
  iteration config pub_topic t s
  = (Raise (UnboundLocalError "time_since_last_msg"), checked config t s).
Proof.
  intros Hinv Hrt Hq Hk.
  pose proof (iteration_ending config pub_topic t s (inv_results _ _ Hinv)) as Hend.
  destruct (checked_inv config t s Hinv) as [_ _ _ Hsince].
  specialize (Hsince Hrt).
  inversion Hend; subst; try congruence.
Qed.

(** C1: the code does not do what the claim states.  With no
    [restart_timeout] in the configuration, an iteration that finds nothing
    outstanding after its drain while SIGTERM has not been delivered raises
    [UnboundLocalError]: [time_since_last_msg] is read at the comparison
    with the timeout and has never been assigned. *)
Theorem idle_without_timeout_raises config pub_topic feeds s t :
  main config pub_topic feeds = MainRunning s ->
  restart_timeout config = None ->
  queued_images (checked config t s) = 0 ->
  keep_looping (checked config t s) = true ->
  iteration config pub_topic t s
  = (Raise (UnboundLocalError "time_since_last_msg"), checked config t s).
Proof.
  intros Hmain Hrt Hq Hk. apply iteration_idle_unbound; try done.
  - by eapply main_inv.
  - by rewrite Hrt.
Qed.

Lemma idle_without_timeout_raises_witness :
  exists s,
    main (Scenario.config None) LoopExample.topic [LoopExample.fresh] = MainRunning s /\
    fst (iteration (Scenario.config None) LoopExample.topic LoopExample.quiet s)
    = Raise (UnboundLocalError "time_since_last_msg").
Proof.
  destruct (main (Scenario.config None) LoopExample.topic [LoopExample.fresh])
    as [s|pub|e pub|pub workers] eqn:Hmain;
    try (exfalso; vm_compute in Hmain; discriminate Hmain).
  exists s. split; [reflexivity|].
  rewrite (idle_without_timeout_raises _ _ _ s LoopExample.quiet Hmain eq_refl).
  - reflexivity.
  - vm_compute in Hmain. injection Hmain as <-. vm_compute. reflexivity.
  - vm_compute in Hmain. injection Hmain as <-. vm_compute. reflexivity.
Defined.

(** ** The loop: the restart *)

Lemma for_recv_latest config pub_topic ticks s s' :
  Forall result_ok (results s) ->
  for_recv config pub_topic ticks s = Running s' ->
  latest_message_time s' = last_event_time (latest_message_time s) ticks /\
  Forall result_ok (results s').
Proof.
  revert s. induction ticks as [|t ticks IH]; intros s Hok; cbn [for_recv].
  - intros [= <-]. done.
  - pose proof (iteration_ending config pub_topic t s Hok) as Hend.
    destruct (checked_spec config t s Hok) as [_ Cl Cr _ _ _ _ _ _].
    destruct (dispatched_keep config pub_topic t (checked config t s)) as (_ & Dr & _ & Dl).
    destruct (iteration config pub_topic t s) as [[[|v]|e] s1] eqn:Hrun; try done.
    assert (Hs1 : s1 = dispatched config pub_topic t (checked config t s))
      by (inversion Hend; done).
    destruct (late_signal_spec t s1) as ([Ll _ _ _ _ _ _ _] & _ & Lr & _).
    intros Hrest. apply IH in Hrest as [Hl Hres].
    + split; [|exact Hres]. rewrite Hl, Ll, Hs1, Dl, Cl. reflexivity.
    + rewrite Lr, Hs1, Dr, Cr. constructor.
Qed.

Lemma truthy_nonzero timeout : ~ (timeout == 0)%Q -> truthy (Some timeout) = true.
Proof.
  intros Hne. unfold truthy. destruct (Qeq_bool timeout 0) eqn:Heq; [|done].
  apply Qeq_bool_iff in Heq. done.
Qed.

(** C5, as stated, fails three times.  With [restart_timeout: 0] the idle
    loop raises instead of returning.  The time is not counted from the last
    message: a call of the loop counts from its own start until it has
    received one, so that, after a restart, an idle loop goes on while more
    than the timeout separates the clock from the last message.  And the
    message that an iteration has just been given does not count: when it
    comes once the timeout has passed, the loop returns to restart. *)
Lemma restart_not_exactly_as_stated :
  verdict (_warper_loop (Scenario.config (Some 0%Q)) [] LoopExample.topic []
             (mkFeed 0 [LoopExample.quiet]))
  = Some (Raise (UnboundLocalError "time_since_last_msg")) /\
  match main RestartExample.config LoopExample.topic [RestartExample.first_call] with
  | MainStarting _ workers => workers = []
  | _ => False
  end /\
  match main RestartExample.config LoopExample.topic
          [RestartExample.first_call; RestartExample.second_call] with
  | MainRunning s =>
      let c := checked RestartExample.config RestartExample.later s in
      queued_images c = 0 /\ keep_looping c = true /\
      last_event_time 0
        (ticks RestartExample.first_call ++ ticks RestartExample.second_call
           ++ [RestartExample.later]) = 1000000 /\
      (5 < minutes_between (now_check RestartExample.later) 1000000)%Q /\
      fst (iteration RestartExample.config LoopExample.topic RestartExample.later s)
      = Ok Continue
  | _ => False
  end /\
  match main RestartExample.config LoopExample.topic [RestartExample.worked] with
  | MainRunning s =>
      msg RestartExample.late_message = Some Scenario.inbound /\
      fst (iteration RestartExample.config LoopExample.topic RestartExample.late_message s)
      = Ok (Return None)
  | _ => False
  end.
Proof. split; [|split; [|split]]; vm_compute; repeat split. Qed.

(** C5 (amended): with a non-zero [restart_timeout], an iteration to which
    the subscriber gives no message returns to restart exactly when, after
    its drain, nothing is outstanding, the call has not handled SIGTERM, and
    more minutes than the timeout, as [total_seconds() / 60.] counts them,
    separate the clock from the last message this call of the loop has
    received (from the start of the call when it has received none); an
    iteration that finds work outstanding goes on whatever the clock reads
    and whatever it is given, and the test of the count then ends without
    reading the elapsed time or the timeout. *)
Theorem restart_when_idle_past_timeout config pub pub_topic workers feed s t timeout :
  restart_timeout config = Some timeout ->
  ~ (timeout == 0)%Q ->
  _warper_loop config pub pub_topic workers feed = Running s ->
  let c := checked config t s in
  let since :=
    minutes_between (now_check t) (last_event_time (start_now feed) (ticks feed)) in
  (msg t = None ->
   fst (iteration config pub_topic t s) = Ok (Return None) <->
   queued_images c = 0 /\ keep_looping c = true /\ (timeout < since)%Q) /\
  (queued_images c <> 0 ->
   fst (iteration config pub_topic t s) = Ok Continue /\
   forall any_timeout, check_idle any_timeout t c = (Ok Continue, c)).
Proof.
  intros Hrt Hne Hrun c since.
  destruct (for_recv_latest config pub_topic (ticks feed)
              (loop_init (start_now feed) workers pub) s) as [Hlatest Hok];
    [constructor|exact Hrun|].
  cbn [loop_init latest_message_time] in Hlatest.
  pose proof (iteration_ending config pub_topic t s Hok) as Hend.
  destruct (checked_spec config t s Hok) as [_ _ _ _ Cs _ _ _ _].
  rewrite Hrt, (truthy_nonzero timeout Hne), Hlatest in Cs.
  fold c in Hend, Cs. fold since in Cs. clearbody c since.
  split.
  - intros _. inversion Hend; subst; cbn [fst]; split;
      try discriminate; try (intros (? & ? & ?); congruence).
    intros _. assert (since0 = since) by congruence.
    assert (timeout0 = timeout) by congruence. by subst.
  - intros Hq. split; [|intros any_timeout; by apply check_idle_busy].
    inversion Hend; subst; cbn [fst]; congruence.
Qed.

Lemma restart_when_idle_past_timeout_witness :
  restart_timeout RestartExample.config = Some 5%Q /\
  last_event_time (start_now RestartExample.worked) (ticks RestartExample.worked)
  = 1000000 /\
  msg LoopExample.quiet = None /\
  exists s,
    _warper_loop RestartExample.config [] LoopExample.topic [] RestartExample.worked
    = Running s /\
    fst (iteration RestartExample.config LoopExample.topic LoopExample.quiet s)
    = Ok (Return None).
Proof.
  split; [reflexivity|]. split; [reflexivity|]. split; [reflexivity|].
  destruct (_warper_loop RestartExample.config [] LoopExample.topic []
              RestartExample.worked) as [s|v s|e s] eqn:Hrun;
    try (exfalso; vm_compute in Hrun; discriminate Hrun).
  exists s. split; [reflexivity|].
  apply (restart_when_idle_past_timeout RestartExample.config [] LoopExample.topic []
           RestartExample.worked s LoopExample.quiet 5%Q).
  - reflexivity.
  - intros H. vm_compute in H. discriminate H.
  - exact Hrun.
  - reflexivity.
  - pose proof Hrun as Hv. vm_compute in Hv. injection Hv as <-.
    vm_compute. repeat split.
Defined.

(** ** Scenarios *)

(** One file goes through: [gdalwarp] then [gdaladdo] are run, and the
    message carries the new location. *)
Example scenario_reprojected :
  let r := _process_message (Scenario.config None) 0%nat "/out/topic"
             Scenario.host_ok Scenario.world0 in
  commands (trace (snd r))
  = [["gdalwarp"; "-t_srs"; "EPSG:4326"; "/in/a.tif"; "/out/a.tif"];
     ["gdaladdo"; "/out/a.tif"; "2"; "4"; "8"]] /\
  fst r = Ok (Some (mkMessage "/out/topic" "file" 1%nat)) /\
  deref (heap (snd r)) 1 = DrainExample.sent.(data) /\
  deref (heap (snd r)) 0 = Scenario.payload.
Proof. vm_compute. repeat split. Qed.

(** [gdalwarp] exits with status 1 and writes "bad projection": no overviews
    are attempted, there is no message, and the text is logged as an
    error. *)
Example scenario_bad_projection :
  let r := _process_message (Scenario.config None) 0%nat "/out/topic"
             Scenario.host_bad_projection Scenario.world0 in
  commands (trace (snd r))
  = [["gdalwarp"; "-t_srs"; "EPSG:4326"; "/in/a.tif"; "/out/a.tif"]] /\
  fst r = Ok None /\
  last (trace (snd r)) = Some (Log "warp" ERROR "bad projection" []).
Proof. vm_compute. repeat split. Qed.

(** [gdalwarp] works and [gdaladdo] fails: both commands have been run, and
    there is no message. *)
Example scenario_overviews_fail :
  let r := _process_message (Scenario.config None) 0%nat "/out/topic"
             Scenario.host_no_overviews Scenario.world0 in
  commands (trace (snd r))
  = [["gdalwarp"; "-t_srs"; "EPSG:4326"; "/in/a.tif"; "/out/a.tif"];
     ["gdaladdo"; "/out/a.tif"; "2"; "4"; "8"]] /\
  fst r = Ok None /\
  last (trace (snd r)) = Some (Log "overviews" ERROR "no overviews" []).
Proof. vm_compute. repeat split. Qed.

(** A message arrives, its file is reprojected by a worker, and the next
    iteration publishes the result. *)
Example scenario_loop_publishes :
  match main (Scenario.config (Some 5%Q)) LoopExample.topic
          [mkFeed 0 [Scenario.tick false [] (Some Scenario.inbound) 1000000;
                     Scenario.tick false [(0%nat, Scenario.host_ok)] None 2000000]] with
  | MainRunning s =>
      sends (events s) = [DrainExample.sent] /\ queued_images s = 0 /\ pool s = []
  | _ => False
  end.
Proof. vm_compute. repeat split. Qed.

(** The same when the worker's [gdalwarp] fails: the result is taken from
    the buffer and counted off, and nothing is sent. *)
Example scenario_loop_failure :
  match main (Scenario.config (Some 5%Q)) LoopExample.topic
          [mkFeed 0 [Scenario.tick false [] (Some Scenario.inbound) 1000000;
                     Scenario.tick false [(0%nat, Scenario.host_bad_projection)] None 2000000]] with
  | MainRunning s =>
      sends (events s) = [] /\ pops (events s) = [(Scenario.payload, None)] /\
      queued_images s = 0
  | _ => False
  end.
Proof. vm_compute. repeat split. Qed.

(** ** Tokens and base names *)

Lemma append_nil_r (s : string) : s +:+ "" = s.
Proof.
  induction s as [|c s IH]; [done|].
  change (String c (s +:+ "") = String c s). by rewrite IH.
Qed.

Lemma append_assoc (a b c : string) : (a +:+ b) +:+ c = a +:+ (b +:+ c).
Proof.
  induction a as [|x a IH]; [done|].
  change (String x ((a +:+ b) +:+ c) = String x (a +:+ (b +:+ c))). by rewrite IH.
Qed.

Lemma append_cons c (s t : string) : String c s +:+ t = String c (s +:+ t).
Proof. reflexivity. Qed.

(** A string that starts with a white-space character still does when
    something is put after it. *)
Lemma space_len_prefix a b :
  Str.space_len (a +:+ b) = 0%nat -> Str.space_len a = 0%nat.
Proof.
  destruct a as [|x [|y [|z a]]]; [done|..]; rewrite !append_cons;
    unfold Str.space_len.
  - by destruct (Str.isspace x).
  - destruct (Str.isspace x); [done|]. by destruct (Str.isspace2 x y).
  - destruct (Str.isspace x); [done|]. by destruct (Str.isspace2 x y).
Qed.

Lemma spaceless_before_snoc tok c rest :
  spaceless_before (tok +:+ String c "") rest
  = spaceless_before tok (String c rest) && Nat.eqb (Str.space_len (String c rest)) 0.
Proof.
  induction tok as [|x tok IH].
  - change (Nat.eqb (Str.space_len (String c rest)) 0 && true
            = true && Nat.eqb (Str.space_len (String c rest)) 0).
    by rewrite andb_true_r.
  - rewrite append_cons. cbn [spaceless_before]. rewrite IH.
    rewrite <- !append_cons, append_assoc. rewrite (append_cons c "" rest).
    change ("" +:+ rest) with rest. by rewrite andb_assoc.
Qed.

Lemma spaceless_before_nil tok rest :
  spaceless_before tok rest = true -> spaceless tok = true.
Proof.
  unfold spaceless. induction tok as [|x tok IH]; [done|].
  cbn [spaceless_before]. intros [Hx Htok]%andb_prop.
  rewrite (IH Htok), andb_true_r. apply Nat.eqb_eq.
  apply Nat.eqb_eq in Hx. rewrite append_nil_r.
  by apply (space_len_prefix _ rest).
Qed.

Lemma split_from_tokens s tok skip :
  (skip <> 0%nat -> tok = "") ->
  spaceless_before tok s = true ->
  Forall (fun x => x <> "" /\ spaceless x = true) (Str.split_from s tok skip).
Proof.
  revert tok skip. induction s as [|c s IH]; intros tok skip Hskip Htok.
  - cbn [Str.split_from].
    destruct (String.eqb_spec tok ""); repeat constructor; [done|].
    by apply (spaceless_before_nil _ "").
  - cbn [Str.split_from]. destruct skip as [|k].
    + destruct (Str.space_len (String c s)) as [|k] eqn:Hc.
      * apply IH; [done|]. by rewrite spaceless_before_snoc, Htok, Hc.
      * destruct (String.eqb_spec tok ""); [by apply IH|].
        constructor; [|by apply IH].
        split; [done|]. by apply (spaceless_before_nil _ (String c s)).
    + rewrite Hskip by done. by apply IH.
Qed.

Lemma split_from_flatten s tok skip :
  flatten (Str.split_from s tok skip) = tok +:+ without_spaces_from s skip.
Proof.
  revert tok skip. induction s as [|c s IH]; intros tok skip;
    cbn [Str.split_from without_spaces_from].
  - destruct (String.eqb_spec tok "") as [->|]; simpl; by rewrite ?append_nil_r.
  - destruct skip as [|k]; [|apply IH].
    destruct (Str.space_len (String c s)) as [|k].
    + by rewrite IH, append_assoc.
    + destruct (String.eqb_spec tok "") as [->|]; simpl; by rewrite IH.
Qed.

(** The tokens [split] returns are not empty and hold no separator, and put
    together they are the string without its separators. *)
Lemma split_tokens s :
  Forall (fun x => x <> "" /\ spaceless x = true) (Str.split s) /\
  flatten (Str.split s) = without_spaces s.
Proof.
  split; [by apply split_from_tokens|]. apply split_from_flatten.
Qed.

Lemma rfind_from_spec c s i last :
  Str.rfind_from c s i last
  = if contains c s then i + Z.of_nat (last_index c s) else last.
Proof.
  revert i last. induction s as [|a s IH]; intros i last; simpl; [done|].
  rewrite IH. destruct (contains c s).
  - rewrite orb_true_r. lia.
  - rewrite orb_false_r. destruct (Ascii.eqb a c); lia.
Qed.

Lemma slice_after_last c s :
  contains c s = true -> contains c (Str.slice_from (S (last_index c s)) s) = false.
Proof.
  induction s as [|a s IH]; simpl; [done|].
  destruct (contains c s) eqn:Hs.
  - intros _. by apply IH.
  - intros _. by destruct s.
Qed.

(** A base name holds no slash, and the path ends with it. *)
Lemma basename_no_slash p : contains Str.slash (Path.basename p) = false.
Proof.
  unfold Path.basename, Str.rfind. rewrite rfind_from_spec.
  destruct (contains Str.slash p) eqn:Hp.
  - replace (Z.to_nat (0 + Z.of_nat (last_index Str.slash p) + 1))
      with (S (last_index Str.slash p)) by lia.
    by apply slice_after_last.
  - exact Hp.
Qed.

Lemma slice_from_suffix n s : exists prefix, s = prefix +:+ Str.slice_from n s.
Proof.
  revert s. induction n as [|n IH]; intros s.
  - by exists "".
  - destruct s as [|c s]; [by exists ""|].
    destruct (IH s) as [prefix Hs]. exists (String c prefix).
    change (String c s = String c (prefix +:+ Str.slice_from n s)). by rewrite <- Hs.
Qed.

Lemma basename_suffix p : exists dir, p = dir +:+ Path.basename p.
Proof. apply slice_from_suffix. Qed.

(** The output path: the directory, a slash unless the directory is empty or
    ends with one, and the base name. *)
Lemma join_basename dir p :
  Path.join dir (Path.basename p)
  = if String.eqb dir "" || Str.endswith Str.slash dir
    then dir +:+ Path.basename p
    else dir +:+ "/" +:+ Path.basename p.
Proof.
  unfold Path.join.
  pose proof (basename_no_slash p) as Hno.
  destruct (Path.basename p) as [|a r]; [done|].
  simpl in Hno |- *. apply orb_false_iff in Hno as [-> _]. done.
Qed.

(** ** Failures in the loop *)

(** Results that carry no message are taken from the buffer and counted
    off, and nothing is sent for them. *)
Lemma failures_are_drained_silently t s :
  Forall (fun r : Result => snd r = None) (results s) ->
  exists s1,
    drain t s = (Ok tt, s1) /\
    sends (events s1) = sends (events s) /\
    pops (events s1) = pops (events s) ++ results s /\
    queued_images s1 = queued_images s - Z.of_nat (length (results s)).
Proof.
  intros Hnone.
  assert (Hok : Forall result_ok (results s)).
  { eapply Forall_impl; [exact Hnone|]. intros r Hr. unfold result_ok. by rewrite Hr. }
  destruct (drain_spec t s Hok) as (s1 & Hrun & Hdr).
  exists s1. destruct Hdr as [_ _ _ _ _ Hq Hpops Hsends _].
  split; [exact Hrun|]. split; [|split; assumption].
  rewrite Hsends.
  assert (Hno : omap snd (results s) = []).
  { clear -Hnone. induction Hnone as [|r rs Hr _ IH]; [done|].
    simpl. rewrite Hr. exact IH. }
  by rewrite Hno, app_nil_r.
Qed.

Lemma failures_are_drained_silently_witness :
  Forall (fun r : Result => snd r = None)
    (results (mkLoop true 0 [(Scenario.payload, None)] 1 None [] [])) /\
  exists s1,
    drain DrainExample.tick (mkLoop true 0 [(Scenario.payload, None)] 1 None [] [])
    = (Ok tt, s1) /\
    sends (events s1) = [] /\ queued_images s1 = 0.
Proof.
  assert (Hnone : Forall (fun r : Result => snd r = None)
                    (results (mkLoop true 0 [(Scenario.payload, None)] 1 None [] []))).
  { by repeat constructor. }
  split; [exact Hnone|].
  destruct (failures_are_drained_silently DrainExample.tick _ Hnone)
    as (s1 & Hrun & Hsends & _ & Hq).
  exists s1. split; [exact Hrun|]. split; [exact Hsends|exact Hq].
Defined.

(** When [main] goes on to call the loop again, the pool has nothing left
    to do and every task handed to it has been taken back. *)
Lemma restart_leaves_nothing_pending config pub_topic feeds pub workers :
  main config pub_topic feeds = MainStarting pub workers ->
  workers = [] /\ length (submits pub) = length (pops pub).
Proof.
  unfold main.
  assert (Hgen : forall pub0,
            length (submits pub0) = length (pops pub0) ->
            main_loop config pub_topic feeds pub0 [] = MainStarting pub workers ->
            workers = [] /\ length (submits pub) = length (pops pub)).
  { induction feeds as [|feed rest IH]; intros pub0 Hbal; cbn [main_loop].
    - intros [= <- <-]. done.
    - pose proof (starting_balanced pub0 Hbal) as Hbal'.
      destruct (_warper_loop config _ pub_topic [] feed) as [s0|v s0|e s0] eqn:Hrun;
        try done.
      destruct (warper_loop_returned _ _ _ _ _ _ Hbal' Hrun) as [Hpool Hb].
      destruct v as [[]|]; [done|]. rewrite Hpool. by apply IH. }
  by apply Hgen.
Qed.

Lemma restart_leaves_nothing_pending_witness :
  exists pub,
    main RestartExample.config LoopExample.topic [RestartExample.first_call]
    = MainStarting pub [] /\
    length (submits pub) = 1%nat /\ length (pops pub) = 1%nat.
Proof.
  destruct (main RestartExample.config LoopExample.topic [RestartExample.first_call])
    as [s|pub|e pub|pub workers] eqn:Hmain;
    try (exfalso; vm_compute in Hmain; discriminate Hmain).
  destruct (restart_leaves_nothing_pending _ _ _ _ _ Hmain) as [-> Hbal].
  exists pub. split; [reflexivity|].
  vm_compute in Hmain. injection Hmain as <-. split; reflexivity.
Defined.

(** ** The output path *)

Lemma contains_append c (s t : string) :
  contains c (s +:+ t) = contains c s || contains c t.
Proof.
  induction s as [|a s IH]; [done|].
  rewrite append_cons. cbn [contains]. rewrite IH. by rewrite orb_assoc.
Qed.

Lemma basename_cons a r :
  Path.basename (String a r)
  = if contains Str.slash r then Path.basename r
    else if Ascii.eqb a Str.slash then r else String a r.
Proof.
  unfold Path.basename, Str.rfind. rewrite !rfind_from_spec. cbn [contains last_index].
  destruct (contains Str.slash r) eqn:Hr.
  - rewrite orb_true_r.
    replace (Z.to_nat (0 + Z.of_nat (S (last_index Str.slash r)) + 1))
      with (S (S (last_index Str.slash r))) by lia.
    replace (Z.to_nat (0 + Z.of_nat (last_index Str.slash r) + 1))
      with (S (last_index Str.slash r)) by lia.
    reflexivity.
  - rewrite orb_false_r. destruct (Ascii.eqb a Str.slash); reflexivity.
Qed.

Lemma basename_slash_free b : contains Str.slash b = false -> Path.basename b = b.
Proof.
  intros Hb. unfold Path.basename, Str.rfind. rewrite rfind_from_spec, Hb. reflexivity.
Qed.

Lemma basename_after_slash p b :
  contains Str.slash b = false -> Path.basename (p +:+ "/" +:+ b) = b.
Proof.
  intros Hb. induction p as [|a p IH].
  - change ("" +:+ "/" +:+ b) with (String Str.slash b).
    rewrite basename_cons, Hb. reflexivity.
  - rewrite append_cons, basename_cons, contains_append.
    change ("/" +:+ b) with (String Str.slash b). cbn [contains].
    rewrite Ascii.eqb_refl. cbn [orb]. rewrite orb_true_r. exact IH.
Qed.

Lemma endswith_split c d : Str.endswith c d = true -> exists p, d = p +:+ String c "".
Proof.
  induction d as [|a d IH]; [done|]. cbn [Str.endswith].
  destruct d as [|a' d'].
  - intros Ha%Ascii.eqb_eq. subst. by exists "".
  - intros Hd. destruct (IH Hd) as [p Hp]. exists (String a p).
    rewrite append_cons. by rewrite <- Hp.
Qed.

Lemma startswith_slash_free b :
  contains Str.slash b = false -> Str.startswith Str.slash b = false.
Proof.
  destruct b as [|a r]; [done|]. cbn [contains Str.startswith].
  by intros [-> _]%orb_false_iff.
Qed.

(** Joining a directory and a name without slash, then taking the base
    name, gives the name back. *)
Lemma basename_join dir b :
  contains Str.slash b = false -> Path.basename (Path.join dir b) = b.
Proof.
  intros Hb. unfold Path.join. rewrite (startswith_slash_free b Hb).
  destruct (String.eqb_spec dir "") as [->|Hdir]; cbn [orb].
  - by apply basename_slash_free.
  - destruct (Str.endswith Str.slash dir) eqn:Hend.
    + destruct (endswith_split _ _ Hend) as [p ->].
      rewrite append_assoc. by apply basename_after_slash.
    + by apply basename_after_slash.
Qed.

(** The path [warp] returns is the target directory, a slash unless the
    directory is empty or ends with one, and the base name of the input,
    which holds no slash and ends the input path; its own base name is that
    of the input, and a file that is warped again into the same directory
    keeps its path. *)
Theorem warp_output_path config fname_in target_dir os w out :
  fst (warp fname_in target_dir config os w) = Ok (Some out) ->
  let base := Path.basename fname_in in
  contains Str.slash base = false /\
  (exists prefix, fname_in = prefix +:+ base) /\
  out = (if String.eqb target_dir "" || Str.endswith Str.slash target_dir
         then target_dir +:+ base else target_dir +:+ "/" +:+ base) /\
  Path.basename out = base /\
  Path.join target_dir (Path.basename out) = out.
Proof.
  intros Hout. apply warp_returns in Hout. subst out. cbv zeta.
  pose proof (basename_no_slash fname_in) as Hbase.
  split; [exact Hbase|]. split; [apply basename_suffix|].
  split; [apply join_basename|].
  rewrite (basename_join _ _ Hbase). done.
Qed.

Lemma warp_output_path_witness :
  exists out,
    fst (warp "/in/a.tif" "/out/" Scenario.geos Scenario.host_ok Scenario.world0)
    = Ok (Some out) /\
    out = "/out/a.tif" /\ Path.basename out = "a.tif" /\
    Path.join "/out/" (Path.basename out) = out.
Proof.
  exists "/out/a.tif".
  assert (Hrun : fst (warp "/in/a.tif" "/out/" Scenario.geos Scenario.host_ok
                        Scenario.world0) = Ok (Some "/out/a.tif"))
    by (vm_compute; reflexivity).
  destruct (warp_output_path _ _ _ _ _ _ Hrun) as (_ & _ & _ & Hbase & Hagain).
  split; [exact Hrun|]. split; [reflexivity|]. split; [exact Hbase|exact Hagain].
Defined.

(** The [uid] of the message is the base name of the file the inbound
    message named, and its [uri] lies in the target directory under that
    name; a file that already has its output path is announced under the
    path it came with. *)
Theorem message_names_the_file config l topic os w m w' :
  (l < length (heap w))%nat ->
  _process_message config l topic os w = (Ok (Some m), w') ->
  exists fname_in,
    deref (heap w) l !! "uri" = Some (PStr fname_in) /\
    deref (heap w') (data m) !! "uid" = Some (PStr (Path.basename fname_in)) /\
    deref (heap w') (data m) !! "uri"
    = Some (PStr (Path.join (target_dir config) (Path.basename fname_in))) /\
    (forall b, contains Str.slash b = false ->
               fname_in = Path.join (target_dir config) b ->
               deref (heap w') (data m) !! "uri" = Some (PStr fname_in)).
Proof.
  intros Hl Hrun.
  destruct (process_message_payload config l topic os w m w' Hl Hrun)
    as (fname_in & Huri & _ & Hcopy & _).
  exists fname_in. cbv zeta in Hcopy. rewrite Hcopy.
  split; [exact Huri|]. split; [|split].
  - rewrite lookup_insert_eq.
    by rewrite (basename_join _ _ (basename_no_slash fname_in)).
  - rewrite lookup_insert_ne by done. by rewrite lookup_insert_eq.
  - intros b Hb Hf. rewrite lookup_insert_ne by done. rewrite lookup_insert_eq.
    rewrite Hf at 1. by rewrite (basename_join _ _ Hb), <- Hf.
Qed.

Lemma message_names_the_file_witness :
  (0 < length (heap Scenario.world0))%nat /\
  exists m w',
    _process_message (Scenario.config None) 0%nat "/out/topic"
      Scenario.host_ok Scenario.world0 = (Ok (Some m), w') /\
    deref (heap w') (data m) !! "uid" = Some (PStr "a.tif") /\
    deref (heap w') (data m) !! "uri" = Some (PStr "/out/a.tif").
Proof.
  split; [simpl; lia|].
  destruct (_process_message (Scenario.config None) 0%nat "/out/topic"
              Scenario.host_ok Scenario.world0) as [r w'] eqn:Hrun.
  assert (Hr : r = Ok (Some (mkMessage "/out/topic" "file" 1%nat))).
  { apply (f_equal fst) in Hrun. simpl in Hrun. rewrite <- Hrun. vm_compute. reflexivity. }
  subst r. exists (mkMessage "/out/topic" "file" 1%nat), w'. split; [reflexivity|].
  destruct (message_names_the_file (Scenario.config None) 0%nat "/out/topic"
              Scenario.host_ok Scenario.world0 _ w' ltac:(simpl; lia) Hrun)
    as (fname_in & Huri & Huid & Hnew & _).
  assert (Hf : fname_in = "/in/a.tif").
  { assert (Huri' : deref (heap Scenario.world0) 0 !! "uri" = Some (PStr "/in/a.tif"))
      by (vm_compute; reflexivity).
    congruence. }
  subst fname_in. split; [exact Huid|exact Hnew].
Defined.

(** ** Failures of the work for one message *)

(** Whatever comes of a command, one process has been started for it, the
    clock has been read at most twice, and no dictionary has changed. *)
Theorem run_cmd_starts_once prog args os w :
  let r := _run_cmd (prog :: args) os w in
  commands (trace (snd r)) = commands (trace w) ++ [prog :: args] /\
  heap (snd r) = heap w /\
  (time_reads w < time_reads (snd r) <= time_reads w + 2)%nat.
Proof.
  cbv zeta. split; [apply run_cmd_trace|]. split; [apply run_cmd_heap|].
  destruct (os_run os (prog :: args)) as [p|e] eqn:Hrun.
  - destruct (Z.eq_dec (returncode p) 0) as [Hrc|Hrc].
    + rewrite (run_cmd_exit_zero _ _ _ _ _ Hrun Hrc). simpl. lia.
    + rewrite (run_cmd_exit_nonzero _ _ _ _ _ Hrun Hrc). simpl. lia.
  - destruct (decide (e = FileNotFoundError)) as [->|Hne].
    + rewrite (run_cmd_missing _ _ _ _ Hrun). simpl. lia.
    + rewrite (run_cmd_launch_error _ _ _ _ _ Hrun Hne). simpl. lia.
Qed.

(** With levels configured, [add_overviews] runs [gdaladdo] on the file with
    the levels in decimal, in their order, and returns [True] exactly when
    that command exits with status 0. *)
Theorem add_overviews_runs_gdaladdo fname levels os w :
  levels <> [] ->
  let r := add_overviews fname (Some levels) os w in
  let cmd := "gdaladdo" :: fname :: map Str.of_int levels in
  commands (trace (snd r)) = commands (trace w) ++ [cmd] /\
  (fst r = Ok true <-> exits_zero os cmd = true) /\
  heap (snd r) = heap w.
Proof.
  intros Hne. cbv zeta. destruct levels as [|x levels]; [done|].
  split; [|split; [|apply add_overviews_heap]].
  - rewrite add_overviews_some by done. unfold overviews_command. cbn [default].
    pose proof (run_cmd_trace "gdaladdo" (fname :: map Str.of_int (x :: levels)) os w) as Htr.
    destruct (_run_cmd _ os w) as [[[[|] msg]|e] w']; cbn [snd] in *;
      rewrite ?commands_logged; exact Htr.
  - split.
    + intros Hok.
      destruct (exits_zero os ("gdaladdo" :: fname :: map Str.of_int (x :: levels)))
        eqn:Hz; [done|].
      exfalso. eapply (add_overviews_not_true fname (Some (x :: levels)) os w); [|exact Hok].
      unfold overviews_ok, overviews_command. cbn [overviews_falsy default orb]. exact Hz.
    + intros Hz.
      destruct (add_overviews_true fname (Some (x :: levels)) os w) as (w' & Hrun & _).
      { unfold overviews_ok, overviews_command. cbn [overviews_falsy default orb]. exact Hz. }
      by rewrite Hrun.
Qed.

Lemma add_overviews_runs_gdaladdo_witness :
  [2; 4; 8] <> [] /\
  commands (trace (snd (add_overviews "/out/a.tif" (Some [2; 4; 8])
                          Scenario.host_ok Scenario.world0)))
  = [["gdaladdo"; "/out/a.tif"; "2"; "4"; "8"]].
Proof.
  split; [discriminate|].
  exact (proj1 (add_overviews_runs_gdaladdo "/out/a.tif" [2; 4; 8]
                  Scenario.host_ok Scenario.world0 ltac:(discriminate))).
Defined.




(** Whatever the outcome of the work, the dictionaries that existed before,
    the inbound payload among them, are as they were. *)
Theorem inbound_payload_never_mutated config l topic os w l' :
  (l' < length (heap w))%nat ->
  deref (heap (snd (_process_message config l topic os w))) l' = deref (heap w) l'.
Proof. apply process_message_old_heap. Qed.

Lemma inbound_payload_never_mutated_witness :
  (0 < length (heap Scenario.world0))%nat /\
  deref (heap (snd (_process_message (Scenario.config None) 0%nat "/out/topic"
                      Scenario.host_no_overviews Scenario.world0))) 0
  = Scenario.payload.
Proof.
  split; [simpl; lia|].
  exact (inbound_payload_never_mutated (Scenario.config None) 0%nat "/out/topic"
           Scenario.host_no_overviews Scenario.world0 0%nat ltac:(simpl; lia)).
Defined.

(** A missing executable is a failure of the work, not an exception: when
    [gdalwarp] is not found, [_process_message] returns [None] having logged
    "Command 'gdalwarp' not found" as an error; when [gdalwarp] has worked
    and [gdaladdo] is not found, it returns [None] having logged the same
    for [gdaladdo]. *)
Theorem missing_executable_is_logged config l topic os w fname_in opts :
  deref (heap w) l !! "uri" = Some (PStr fname_in) ->
  ODict.getitem (projections config) (target_projection config) = Ok opts ->
  ODict.wf opts ->
  let new_uri := Path.join (target_dir config) (Path.basename fname_in) in
  let warp_command := spec_warp_command opts fname_in (target_dir config) in
  let r := _process_message config l topic os w in
  (os_run os warp_command = Raise FileNotFoundError ->
   fst r = Ok None /\
   trace (snd r)
   = trace w ++ [Log "warp" DEBUG "Running gdalwarp for '%s'" [AStr (Path.basename fname_in)];
                 Run warp_command;
                 Log "warp" ERROR "Command 'gdalwarp' not found" []]) /\
  (exits_zero os warp_command = true ->
   overviews_falsy (overviews config) = false ->
   os_run os (overviews_command new_uri (overviews config)) = Raise FileNotFoundError ->
   fst r = Ok None /\
   last (trace (snd r)) = Some (Log "overviews" ERROR "Command 'gdaladdo' not found" [])).
Proof.
  intros Huri Hopts Hwf. cbv zeta.
  rewrite (process_message_unfold _ _ _ _ _ _ _ Huri Hopts).
  pose proof (get_warp_command_spec opts fname_in
                (Path.join (target_dir config) (Path.basename fname_in)) Hwf) as Hcmd.
  split.
  - intros Hmiss. rewrite (warp_unfold _ _ _ _ _ _ Hcmd).
    unfold spec_warp_command in Hmiss. rewrite (run_cmd_missing _ _ _ _ Hmiss).
    cbn [fst snd]. split; [reflexivity|]. cbn. by rewrite <- !app_assoc.
  - intros Hwarp Hf Hmiss.
    destruct (warp_some opts fname_in (target_dir config) os (copied l w) Hwf Hwarp)
      as (w1 & Hw & _ & _).
    rewrite Hw, (add_overviews_some _ _ _ _ Hf).
    unfold overviews_command in *. rewrite (run_cmd_missing _ _ _ _ Hmiss).
    cbn [fst snd]. split; [reflexivity|]. cbn. by rewrite last_snoc.
Qed.

Lemma missing_executable_is_logged_witness :
  deref (heap Scenario.world0) 0 !! "uri" = Some (PStr "/in/a.tif") /\
  ODict.wf Scenario.geos /\
  fst (_process_message (Scenario.config None) 0%nat "/out/topic"
         Missing.host_bare Scenario.world0) = Ok None /\
  last (trace (snd (_process_message (Scenario.config None) 0%nat "/out/topic"
                      Missing.host_no_gdaladdo Scenario.world0)))
  = Some (Log "overviews" ERROR "Command 'gdaladdo' not found" []).
Proof.
  assert (Huri : deref (heap Scenario.world0) 0 !! "uri" = Some (PStr "/in/a.tif"))
    by (vm_compute; reflexivity).
  assert (Hwf : ODict.wf Scenario.geos) by solve_wf.
  split; [exact Huri|]. split; [exact Hwf|]. split.
  - destruct (missing_executable_is_logged (Scenario.config None) 0%nat "/out/topic"
                Missing.host_bare Scenario.world0 "/in/a.tif" Scenario.geos
                Huri eq_refl Hwf) as [Hwarp _].
    exact (proj1 (Hwarp eq_refl)).
  - destruct (missing_executable_is_logged (Scenario.config None) 0%nat "/out/topic"
                Missing.host_no_gdaladdo Scenario.world0 "/in/a.tif" Scenario.geos
                Huri eq_refl Hwf) as [_ Haddo].
    exact (proj2 (Haddo eq_refl eq_refl eq_refl)).
Defined.

(** ** Workers that raise *)

Lemma delivered_lost t s : lost s <= lost (delivered t s).
Proof.
  destruct (deliver_spec t s) as (_ & [_ Hq _ _ _ _ Hsize _] & _).
  unfold lost. rewrite Hq. lia.
Qed.

Lemma checked_lost config t s :
  Forall result_ok (results s) -> lost (checked config t s) = lost (delivered t s).
Proof.
  intros Hok. destruct (checked_spec config t s Hok) as [_ _ Cr Cq _ Cp _ _ _].
  destruct (deliver_spec t s) as (_ & [_ Hq _ _ _ _ _ _] & _).
  unfold lost. rewrite Cr, Cq, Cp, Hq. cbn [length]. lia.
Qed.

Lemma dispatched_lost config pub_topic t c :
  lost (dispatched config pub_topic t c) = lost c.
Proof.
  unfold lost, dispatched. destruct (msg t); cbn; [|done].
  rewrite length_app. simpl. lia.
Qed.

Lemma iteration_with_lost config pub_topic t s :
  Forall result_ok (results s) ->
  0 < lost (delivered t s) ->
  exists s',
    iteration config pub_topic t s = (Ok Continue, s') /\
    lost s' = lost (delivered t s) /\ results s' = [] /\ 0 < queued_images s'.
Proof.
  intros Hok Hlost.
  pose proof (iteration_ending config pub_topic t s Hok) as Hend.
  pose proof (checked_lost config t s Hok) as Hc.
  destruct (checked_spec config t s Hok) as [_ _ Cr _ _ _ _ _ _].
  destruct (dispatched_keep config pub_topic t (checked config t s)) as (_ & Dr & Dq & _).
  pose proof (dispatched_lost config pub_topic t (checked config t s)) as Dl.
  assert (Hq : 0 < queued_images (checked config t s)).
  { unfold lost in Hc, Hlost. lia. }
  exists (dispatched config pub_topic t (checked config t s)).
  split; [|split; [lia|split; [congruence|lia]]].
  inversion Hend; subst; try lia; reflexivity.
Qed.

Lemma late_signal_lost t s :
  lost (snd (late_signal t s)) = lost s /\
  results (snd (late_signal t s)) = results s /\
  queued_images (snd (late_signal t s)) = queued_images s.
Proof.
  destruct (late_signal_spec t s) as ([_ Hq _ _ _ _ _ _] & Hp & Hr & _).
  unfold lost. by rewrite Hq, Hp, Hr.
Qed.

Lemma for_recv_with_lost config pub_topic ticks s :
  Forall result_ok (results s) ->
  0 < lost s ->
  exists s',
    for_recv config pub_topic ticks s = Running s' /\ lost s <= lost s' /\
    (ticks <> [] -> 0 < queued_images s').
Proof.
  revert s. induction ticks as [|t ticks IH]; intros s Hok Hlost.
  - exists s. split; [reflexivity|]. split; [lia|done].
  - pose proof (delivered_lost t s) as Hd.
    destruct (iteration_with_lost config pub_topic t s Hok) as (s1 & Hrun & Hl & Hr & Hq1);
      [lia|].
    destruct (late_signal_lost t s1) as (Ll & Lr & Lq).
    destruct (IH (snd (late_signal t s1))) as (s' & Hrest & Hl' & Hq');
      [rewrite Lr, Hr; constructor|lia|].
    exists s'. cbn [for_recv]. rewrite Hrun. split; [exact Hrest|]. split; [lia|].
    intros _. destruct ticks as [|t' ticks'].
    + cbn [for_recv] in Hrest. injection Hrest as <-. lia.
    + by apply Hq'.
Qed.

Lemma deliver_one t s f :
  finished t = [f] ->
  exists s0, delivered t s = snd (pool_finish f t s0) /\
             pool s0 = pool s /\ results s0 = results s /\
             queued_images s0 = queued_images s.
Proof.
  intros Hfin. unfold delivered, deliver, _signal_handler, loop_log. unfold_eff.
  rewrite Hfin. cbn [for_each]. unfold_eff.
  destruct (sigterm t); cbn [fst snd].
  - exists (set_keep_looping false
              (add_event
                 (Log "warper_loop" INFO
                    "Caught SIGTERM, stop receiving new messages." []) s)).
    split; [|done].
    destruct (pool_finish f t _) as [[[]|e] s1] eqn:Hrun; reflexivity.
  - exists s. split; [|done].
    destruct (pool_finish f t s) as [[[]|e] s1] eqn:Hrun; reflexivity.
Qed.

Lemma pool_finish_raising i os t s task e :
  pool s !! i = Some task ->
  fst (worker_run os task) = Raise e ->
  lost (snd (pool_finish (i, os) t s)) = lost s + 1.
Proof.
  intros Htask Hrun. unfold pool_finish. unfold_eff. cbn [fst snd].
  rewrite Htask, Hrun. cbn [fst snd]. unfold lost. cbn.
  rewrite length_delete by eauto. apply lookup_lt_Some in Htask. lia.
Qed.

(** A worker that raises is never counted off: from then on the loop
    neither returns nor raises, whatever arrives, SIGTERM included, and
    [queued_images] stays positive. *)
Theorem crashed_worker_blocks_the_loop config pub_topic feeds s t i os task e more :
  main config pub_topic feeds = MainRunning s ->
  finished t = [(i, os)] ->
  pool s !! i = Some task ->
  fst (worker_run os task) = Raise e ->
  exists s',
    for_recv config pub_topic (t :: more) s = Running s' /\
    0 < queued_images s' /\ 0 < lost s'.
Proof.
  intros Hmain Hfin Htask Hraise.
  pose proof (main_inv _ _ _ _ Hmain) as [_ Hpend Hok _].
  assert (Hlost : 0 < lost (delivered t s)).
  { destruct (deliver_one t s (i, os) Hfin) as (s0 & -> & Hp & Hr & Hq).
    rewrite (pool_finish_raising i os t s0 task e) by (by rewrite ?Hp).
    unfold lost. rewrite Hp, Hr, Hq. lia. }
  destruct (iteration_with_lost config pub_topic t s Hok Hlost)
    as (s1 & Hrun & Hl & Hr & Hq1).
  destruct (late_signal_lost t s1) as (Ll & Lr & Lq).
  destruct (for_recv_with_lost config pub_topic more (snd (late_signal t s1)))
    as (s' & Hrest & Hl' & Hq'); [rewrite Lr, Hr; constructor|lia|].
  exists s'. cbn [for_recv]. rewrite Hrun. split; [exact Hrest|]. split; [|lia].
  destruct more as [|t' more'].
  - cbn [for_recv] in Hrest. injection Hrest as <-. lia.
  - by apply Hq'.
Qed.

Lemma crashed_worker_blocks_the_loop_witness :
  exists s task,
    main (Scenario.config (Some 5%Q)) LoopExample.topic [Crash.feed] = MainRunning s /\
    pool s !! 0%nat = Some task /\
    fst (worker_run Scenario.host_ok task) = Raise (KeyError "uri") /\
    exists s',
      for_recv (Scenario.config (Some 5%Q)) LoopExample.topic
        [Crash.done; LoopExample.stop; RestartExample.later] s = Running s' /\
      0 < queued_images s'.
Proof.
  destruct (main (Scenario.config (Some 5%Q)) LoopExample.topic [Crash.feed])
    as [s|pub|e pub|pub workers] eqn:Hmain;
    try (exfalso; vm_compute in Hmain; discriminate Hmain).
  assert (Htask : pool s !! 0%nat
                  = Some (mkTask (Scenario.config (Some 5%Q)) (data Crash.inbound)
                            LoopExample.topic)).
  { pose proof Hmain as Hv. vm_compute in Hv. injection Hv as <-. vm_compute. reflexivity. }
  assert (Hraise : fst (worker_run Scenario.host_ok
                          (mkTask (Scenario.config (Some 5%Q)) (data Crash.inbound)
                             LoopExample.topic)) = Raise (KeyError "uri"))
    by (vm_compute; reflexivity).
  exists s, (mkTask (Scenario.config (Some 5%Q)) (data Crash.inbound) LoopExample.topic).
  split; [reflexivity|]. split; [exact Htask|]. split; [exact Hraise|].
  destruct (crashed_worker_blocks_the_loop _ _ _ s Crash.done 0%nat Scenario.host_ok _ _
              [LoopExample.stop; RestartExample.later] Hmain eq_refl Htask Hraise)
    as (s' & Hrun & Hq & _).
  exists s'. split; [exact Hrun|exact Hq].
Defined.

(** ** Messages after SIGTERM *)

(** SIGTERM does not stop the loop from taking work: while tasks are
    outstanding, a message that arrives after the signal is handed to the
    pool like any other. *)
Theorem messages_after_sigterm_are_submitted config pub_topic feeds s t m :
  main config pub_topic feeds = MainRunning s ->
  keep_looping s = false \/ sigterm t = true ->
  queued_images (checked config t s) <> 0 ->
  msg t = Some m ->
  exists s',
    iteration config pub_topic t s = (Ok Continue, s') /\
    keep_looping s' = false /\
    submits (events s') = submits (events s) ++ [mkTask config (data m) pub_topic] /\
    pool s' = pool (delivered t s) ++ [mkTask config (data m) pub_topic] /\
    queued_images s' = queued_images (checked config t s) + 1.
Proof.
  intros Hmain Hsig Hq Hmsg. pose proof (main_inv _ _ _ _ Hmain) as Hinv.
  destruct (iteration_after_sigterm config pub_topic t s Hinv Hsig) as [_ Hbusy].
  destruct (Hbusy Hq) as (Hrun & Hkeep & _ & _).
  destruct (checked_spec config t s (inv_results _ _ Hinv)) as [_ _ _ _ _ Cp Csub _ _].
  exists (dispatched config pub_topic t (checked config t s)).
  split; [exact Hrun|]. split; [exact Hkeep|].
  unfold dispatched. rewrite Hmsg. cbn [events pool queued_images].
  rewrite submits_app, Csub, Cp. done.
Qed.

Lemma messages_after_sigterm_are_submitted_witness :
  exists s s',
    main (Scenario.config (Some 5%Q)) LoopExample.topic [LoopExample.busy] = MainRunning s /\
    sigterm Crash.stop_with_message = true /\
    iteration (Scenario.config (Some 5%Q)) LoopExample.topic Crash.stop_with_message s
    = (Ok Continue, s') /\
    length (submits (events s')) = 3%nat /\ keep_looping s' = false.
Proof.
  destruct (main (Scenario.config (Some 5%Q)) LoopExample.topic [LoopExample.busy])
    as [s|pub|e pub|pub workers] eqn:Hmain;
    try (exfalso; vm_compute in Hmain; discriminate Hmain).
  destruct (messages_after_sigterm_are_submitted _ _ _ s Crash.stop_with_message
              Scenario.inbound Hmain (or_intror eq_refl))
    as (s' & Hrun & Hkeep & Hsub & _).
  - pose proof Hmain as Hv. vm_compute in Hv. injection Hv as <-. vm_compute. discriminate.
  - reflexivity.
  - exists s, s'. split; [reflexivity|]. split; [reflexivity|]. split; [exact Hrun|].
    split; [|exact Hkeep]. rewrite Hsub, length_app.
    pose proof Hmain as Hv. vm_compute in Hv. injection Hv as <-. reflexivity.
Defined.

(** ** Where the messages sent come from *)

Lemma traced_ext config pub_topic workers buffer tr tr' :
  submits tr' = submits tr -> pops tr' = pops tr -> sends tr' = sends tr ->
  traced config pub_topic workers buffer tr ->
  traced config pub_topic workers buffer tr'.
Proof.
  intros Hsub Hpop Hsend [Ht Hp Hb Hpp Hs].
  split; rewrite ?Hsub, ?Hpop, ?Hsend; assumption.
Qed.

Lemma traced_log config pub_topic workers buffer tr logger lvl fmt args :
  traced config pub_topic workers buffer tr ->
  traced config pub_topic workers buffer (tr ++ [Log logger lvl fmt args]).
Proof.
  apply traced_ext; rewrite ?submits_app, ?pops_app, ?sends_app; simpl;
    by rewrite app_nil_r.
Qed.

Lemma process_message_topic config l topic os w m :
  fst (_process_message config l topic os w) = Ok (Some m) -> topic <> "".
Proof.
  intros Hrun.
  destruct (process_message_needs config l topic os w m Hrun)
    as (fname_in & entry & opts & Huri & Hentry & Hopts).
  rewrite (process_message_unfold_entry _ _ _ _ _ _ _ _ Huri Hentry Hopts) in Hrun.
  destruct (warp fname_in (target_dir config) opts os (copied l w))
    as [[[new_uri|]|e] w1]; try discriminate.
  destruct (add_overviews new_uri (overviews config) os w1) as [[[|]|e] w2];
    try discriminate.
  rewrite message_for_topic in Hrun.
  by destruct (String.eqb_spec topic "").
Qed.

Lemma worker_run_topic os task r m :
  fst (worker_run os task) = Ok r -> snd r = Some m -> task_topic task <> "".
Proof.
  unfold worker_run, _process_message_worker. unfold_eff.
  destruct (_process_message (task_config task) 0%nat (task_topic task) os
              (mkWorld [task_data task] [] 0)) as [[pm|e] w] eqn:Hrun;
    cbn [fst snd]; [|discriminate].
  intros [= <-]. cbn [snd]. destruct pm as [m'|]; [|discriminate]. intros _.
  apply (process_message_topic (task_config task) 0%nat (task_topic task) os
           (mkWorld [task_data task] [] 0) m').
  by rewrite Hrun.
Qed.

Lemma worker_run_answers os task r :
  fst (worker_run os task) = Ok r -> answers task r.
Proof.
  intros Hrun. destruct (worker_run_result os task r Hrun) as [Hfst Hsnd].
  pose proof (worker_run_topic os task r) as Htopic.
  split; [exact Hfst|]. destruct (snd r) as [m|]; [|done].
  destruct Hsnd as (fname_in & Huri & ->). exists fname_in. split; [exact Huri|].
  split; [by eapply Htopic|].
  unfold announcement. cbv zeta.
  by rewrite (basename_join _ _ (basename_no_slash fname_in)).
Qed.

Lemma pool_finish_traced config pub_topic f t s :
  traced_state config pub_topic s ->
  traced_state config pub_topic (snd (pool_finish f t s)).
Proof.
  intros [Ht Hp Hb Hpp Hs]. unfold traced_state, pool_finish. unfold_eff. cbn [fst snd].
  destruct (pool s !! fst f) as [task|] eqn:Htask; cbn [fst snd]; [|by split].
  assert (Hin : task ∈ submits (events s)).
  { apply Hp. apply list_elem_of_lookup. eauto. }
  destruct (fst (worker_run (snd f) task)) as [r|e] eqn:Hrun; cbn [fst snd];
    (split; cbn; [exact Ht| |..|exact Hpp|exact Hs]).
  - intros task' Hin'. apply Hp. by eapply list_elem_of_delete_inv.
  - intros r' [Hr'|Hr']%elem_of_app; [by apply Hb|].
    apply list_elem_of_singleton in Hr' as ->.
    exists task. split; [exact Hin|]. by eapply worker_run_answers.
  - intros task' Hin'. apply Hp. by eapply list_elem_of_delete_inv.
  - exact Hb.
Qed.

Lemma for_each_pool_finish_traced config pub_topic fs t s :
  traced_state config pub_topic s ->
  traced_state config pub_topic (snd (for_each pool_finish fs t s)).
Proof.
  revert s. induction fs as [|f fs IH]; intros s Htr; [exact Htr|].
  cbn [for_each]. unfold_eff.
  destruct (pool_finish_spec f t s) as (s1 & Hrun & _).
  pose proof (pool_finish_traced config pub_topic f t s Htr) as Htr1.
  rewrite Hrun in Htr1 |- *. cbn [fst snd] in *. by apply IH.
Qed.

Lemma delivered_traced config pub_topic t s :
  traced_state config pub_topic s -> traced_state config pub_topic (delivered t s).
Proof.
  intros Htr. unfold delivered, deliver, _signal_handler, loop_log. unfold_eff.
  destruct (sigterm t); cbn [fst snd]; apply for_each_pool_finish_traced; [|exact Htr].
  unfold traced_state. cbn. by apply traced_log.
Qed.

Lemma drained_traced config pub_topic s s' :
  drained s s' -> traced_state config pub_topic s -> traced_state config pub_topic s'.
Proof.
  intros [_ _ _ Dp Dr _ Dpops Dsends Dsub] [Ht Hp Hb Hpp Hs]. unfold traced_state.
  split; rewrite ?Dp, ?Dr, ?Dpops, ?Dsends, ?Dsub; try assumption.
  - intros r Hr. by apply elem_of_nil in Hr.
  - intros r [Hr|Hr]%elem_of_app; auto.
  - by rewrite omap_app, Hs.
Qed.

Lemma checked_traced config pub_topic t s :
  Forall result_ok (results s) ->
  traced_state config pub_topic s ->
  traced_state config pub_topic (checked config t s).
Proof.
  intros Hok Htr. pose proof (delivered_traced config pub_topic t s Htr) as Hd.
  destruct (deliver_spec t s) as (_ & Henv & _).
  destruct (drain_spec t (delivered t s) (env_ok _ _ Henv Hok)) as (s1 & Hrun & Hdr).
  pose proof (drained_traced config pub_topic _ _ Hdr Hd) as H1.
  unfold checked, stamped. rewrite Hrun. cbn [snd].
  destruct (truthy (restart_timeout config)); exact H1.
Qed.

Lemma dispatched_traced config pub_topic t c :
  traced_state config pub_topic c ->
  traced_state config pub_topic (dispatched config pub_topic t c).
Proof.
  intros [Ht Hp Hb Hpp Hs]. unfold traced_state, dispatched.
  destruct (msg t) as [m|]; [|by split]. cbn [pool results events].
  split; rewrite ?submits_app, ?pops_app, ?sends_app; simpl; rewrite ?app_nil_r.
  - intros task [Hin|Hin]%elem_of_app; [by apply Ht|].
    by apply list_elem_of_singleton in Hin as ->.
  - intros task [Hin|Hin]%elem_of_app; apply elem_of_app; auto.
  - intros r Hr. destruct (Hb r Hr) as (task & Hin & Hans).
    exists task. split; [apply elem_of_app; auto|exact Hans].
  - intros r Hr. destruct (Hpp r Hr) as (task & Hin & Hans).
    exists task. split; [apply elem_of_app; auto|exact Hans].
  - exact Hs.
Qed.

Lemma iteration_traced config pub_topic t s :
  Forall result_ok (results s) ->
  traced_state config pub_topic s ->
  traced_state config pub_topic (snd (iteration config pub_topic t s)).
Proof.
  intros Hok Htr. pose proof (checked_traced config pub_topic t s Hok Htr) as Hc.
  pose proof (iteration_ending config pub_topic t s Hok) as Hend.
  inversion Hend; cbn [snd]; try exact Hc; try (by apply dispatched_traced).
  unfold restarting, traced_state. cbn. by apply traced_log.
Qed.

Lemma late_signal_traced config pub_topic t s :
  traced_state config pub_topic s ->
  traced_state config pub_topic (snd (late_signal t s)).
Proof.
  intros Htr. unfold late_signal, _signal_handler, loop_log. unfold_eff.
  destruct (sigterm_late t); cbn [fst snd]; [|exact Htr].
  unfold traced_state. cbn. by apply traced_log.
Qed.

Lemma for_recv_traced config pub_topic ticks s :
  loop_inv config s ->
  traced_state config pub_topic s ->
  traced_state config pub_topic (state_of (for_recv config pub_topic ticks s)).
Proof.
  revert s. induction ticks as [|t ticks IH]; intros s Hinv Htr; [exact Htr|].
  cbn [for_recv].
  pose proof (iteration_traced config pub_topic t s (inv_results _ _ Hinv) Htr) as Htr1.
  destruct (iteration config pub_topic t s) as [[[|v]|e] s1] eqn:Hrun;
    cbn [snd state_of] in *; try exact Htr1; try (by apply late_signal_traced).
  apply IH; [|by apply late_signal_traced].
  apply late_signal_inv. by eapply iteration_inv.
Qed.

Lemma main_loop_traced config pub_topic feeds pub :
  length (submits pub) = length (pops pub) ->
  traced config pub_topic [] [] pub ->
  exists workers buffer,
    traced config pub_topic workers buffer
      (trace_of (main_loop config pub_topic feeds pub [])).
Proof.
  revert pub. induction feeds as [|feed feeds IH]; intros pub Hbal Htr.
  - exists [], []. exact Htr.
  - cbn [main_loop].
    pose proof (starting_balanced pub Hbal) as Hbal'.
    pose proof (traced_log _ _ _ _ _ "gdal_warper" DEBUG "Starting warper loop." [] Htr)
      as Htr0.
    pose proof (warper_loop_returned config
                  (pub ++ [Log "gdal_warper" DEBUG "Starting warper loop." []])
                  pub_topic feed) as Hret.
    pose proof (for_recv_traced config pub_topic (ticks feed)
                  (loop_init (start_now feed) []
                     (pub ++ [Log "gdal_warper" DEBUG "Starting warper loop." []]))
                  (loop_init_inv config _ _ Hbal') Htr0) as Hloop.
    fold (_warper_loop config (pub ++ [Log "gdal_warper" DEBUG "Starting warper loop." []])
            pub_topic [] feed) in Hloop.
    destruct (_warper_loop config
                (pub ++ [Log "gdal_warper" DEBUG "Starting warper loop." []])
                pub_topic [] feed) as [s|[[]|] s|e s] eqn:Hrun;
      cbn [state_of trace_of] in *.
    + eauto.
    + exists (pool s), (results s). by apply traced_log.
    + destruct (Hret _ _ Hbal' eq_refl) as [Hpool Hbal''].
      rewrite Hpool. apply IH; [exact Hbal''|].
      destruct Hloop as [Ht Hp Hb Hpp Hs]. split; try assumption.
      * intros task Hin. by apply elem_of_nil in Hin.
      * intros r Hin. by apply elem_of_nil in Hin.
    + eauto.
Qed.

Lemma main_traced config pub_topic feeds :
  exists workers buffer,
    traced config pub_topic workers buffer (trace_of (main config pub_topic feeds)).
Proof.
  apply main_loop_traced; [reflexivity|].
  split; simpl; try (intros x Hin; by apply elem_of_nil in Hin). reflexivity.
Qed.

(** Whatever [main] meets, every message it has sent announces a file
    named in the payload of a message handed to the pool: it has the
    publishing topic, the type [file], and that payload with [uri] and
    [uid] set for the target directory. *)
Theorem sent_messages_announce_submitted_files config pub_topic feeds m :
  m ∈ sends (trace_of (main config pub_topic feeds)) ->
  exists payload fname_in,
    mkTask config payload pub_topic ∈ submits (trace_of (main config pub_topic feeds)) /\
    payload !! "uri" = Some (PStr fname_in) /\
    m = announcement config pub_topic payload fname_in.
Proof.
  intros Hm. destruct (main_traced config pub_topic feeds)
    as (workers & buffer & [Ht _ _ Hpp Hs]).
  rewrite Hs in Hm. apply list_elem_of_omap in Hm as (r & Hr & Hsnd).
  destruct (Hpp r Hr) as (task & Hin & _ & Hans). rewrite Hsnd in Hans.
  destruct Hans as (fname_in & Huri & _ & ->).
  destruct (Ht task Hin) as [Hc Htopic]. destruct task as [c payload topic].
  cbn in *. subst. eauto.
Qed.

Lemma sent_messages_announce_submitted_files_witness :
  exists payload fname_in,
    payload !! "uri" = Some (PStr fname_in) /\
    announcement RestartExample.config LoopExample.topic Scenario.payload "/in/a.tif"
    = announcement RestartExample.config LoopExample.topic payload fname_in.
Proof.
  destruct (sent_messages_announce_submitted_files RestartExample.config
              LoopExample.topic [RestartExample.first_call]
              (announcement RestartExample.config LoopExample.topic Scenario.payload
                 "/in/a.tif"))
    as (payload & fname_in & _ & Huri & Hm).
  - vm_compute. left.
  - exists payload, fname_in. split; [exact Huri|exact Hm].
Defined.

(** Whatever [main] meets, the messages sent are the messages of the
    results taken from the buffer, in the order the workers finished:
    nothing is sent twice, nothing is sent for a failed reprojection, and no
    successful one is left out once its result is taken. *)
Theorem messages_sent_in_completion_order config pub_topic feeds :
  sends (trace_of (main config pub_topic feeds))
  = omap snd (pops (trace_of (main config pub_topic feeds))).
Proof.
  destruct (main_traced config pub_topic feeds) as (workers & buffer & [_ _ _ _ Hs]).
  exact Hs.
Qed.

(** ** What the loop can raise *)

Lemma iteration_raises config pub_topic t s e s' :
  loop_inv config s ->
  iteration config pub_topic t s = (Raise e, s') ->
  e = UnboundLocalError "time_since_last_msg" /\
  truthy (restart_timeout config) = false.
Proof.
  intros Hinv Hrun.
  pose proof (iteration_ending config pub_topic t s (inv_results _ _ Hinv)) as Hend.
  destruct (checked_spec config t s (inv_results _ _ Hinv)) as [_ _ _ _ Cs _ _ _ _].
  pose proof (inv_since _ _ Hinv) as Hsince.
  rewrite Hrun in Hend. inversion Hend; subst.
  - split; [reflexivity|]. destruct (truthy (restart_timeout config)); [congruence|done].
  - exfalso. assert (Hf : truthy (restart_timeout config) = false).
    { match goal with H : restart_timeout config = None |- _ => by rewrite H end. }
    rewrite Hf, (Hsince Hf) in Cs. congruence.
Qed.

Lemma for_recv_raises config pub_topic ticks s e s' :
  loop_inv config s ->
  for_recv config pub_topic ticks s = Raised e s' ->
  e = UnboundLocalError "time_since_last_msg" /\
  truthy (restart_timeout config) = false.
Proof.
  revert s. induction ticks as [|t ticks IH]; intros s Hinv; cbn [for_recv]; [done|].
  destruct (iteration config pub_topic t s) as [[[|v]|e1] s1] eqn:Hrun; try done.
  - apply IH. apply late_signal_inv. by eapply iteration_inv.
  - intros [= <- <-]. by eapply iteration_raises.
Qed.

Lemma main_loop_raises config pub_topic feeds pub e pub' :
  length (submits pub) = length (pops pub) ->
  main_loop config pub_topic feeds pub [] = MainRaised e pub' ->
  e = UnboundLocalError "time_since_last_msg" /\
  truthy (restart_timeout config) = false.
Proof.
  revert pub. induction feeds as [|feed feeds IH]; intros pub Hbal; cbn [main_loop]; [done|].
  pose proof (starting_balanced pub Hbal) as Hbal'.
  pose proof (warper_loop_returned config
                (pub ++ [Log "gdal_warper" DEBUG "Starting warper loop." []])
                pub_topic feed) as Hret.
  destruct (_warper_loop config
              (pub ++ [Log "gdal_warper" DEBUG "Starting warper loop." []])
              pub_topic [] feed) as [s|[[]|] s|e1 s] eqn:Hrun; try done.
  - destruct (Hret _ _ Hbal' eq_refl) as [Hpool Hbal'']. rewrite Hpool. by apply IH.
  - intros [= <- <-]. eapply for_recv_raises; [|exact Hrun]. by apply loop_init_inv.
Qed.

(** Whatever arrives, [main] raises nothing but the [UnboundLocalError] of
    the comparison of [time_since_last_msg], and only when
    [restart_timeout] is absent or 0: with a timeout configured the loop
    raises nothing, and [msg_data['uri']] never fails for a result that a
    worker has returned. *)
Theorem main_raises_only_without_timeout config pub_topic feeds e pub :
  main config pub_topic feeds = MainRaised e pub ->
  e = UnboundLocalError "time_since_last_msg" /\
  truthy (restart_timeout config) = false.
Proof. apply main_loop_raises. reflexivity. Qed.

Lemma main_raises_only_without_timeout_witness :
  exists e pub,
    main (Scenario.config None) LoopExample.topic [mkFeed 0 [DrainExample.tick]]
    = MainRaised e pub /\
    e = UnboundLocalError "time_since_last_msg".
Proof.
  destruct (main (Scenario.config None) LoopExample.topic [mkFeed 0 [DrainExample.tick]])
    as [s|pub|e pub|pub workers] eqn:Hmain;
    try (exfalso; vm_compute in Hmain; discriminate Hmain).
  exists e, pub. split; [reflexivity|].
  exact (proj1 (main_raises_only_without_timeout _ _ _ e pub Hmain)).
Defined.

(** ** SIGTERM and the work outstanding *)

(** Once the call of the loop that is running has handled SIGTERM before the
    test of an iteration, the loop returns [SIGTERM] in the very iteration
    that finds every task finished and no worker lost, and in no other. *)
Theorem sigterm_stops_exactly_when_work_is_done config pub_topic feeds s t :
  main config pub_topic feeds = MainRunning s ->
  keep_looping s = false \/ sigterm t = true ->
  fst (iteration config pub_topic t s) = Ok (Return (Some SIGTERM)) <->
  pool (delivered t s) = [] /\ lost (delivered t s) = 0.
Proof.
  intros Hmain Hsig. pose proof (main_inv _ _ _ _ Hmain) as Hinv.
  destruct (iteration_after_sigterm config pub_topic t s Hinv Hsig) as [Hdone Hbusy].
  destruct (checked_spec config t s (inv_results _ _ Hinv)) as [_ _ _ Cq _ _ _ _ _].
  destruct (deliver_spec t s) as (_ & [_ Hq _ _ _ _ _ _] & _).
  pose proof (delivered_lost t s) as Hl. pose proof (inv_pending _ _ Hinv) as Hpend.
  assert (Hcount : queued_images (checked config t s)
                   = lost (delivered t s) + Z.of_nat (length (pool (delivered t s)))).
  { unfold lost. rewrite Cq. lia. }
  assert (Hs : 0 <= lost s) by (unfold lost; lia).
  destruct (decide (queued_images (checked config t s) = 0)) as [Hz|Hnz].
  - rewrite (Hdone Hz). cbn [fst]. split; [intros _|done].
    destruct (pool (delivered t s)); [split; [done|]|]; cbn [length] in Hcount; lia.
  - destruct (Hbusy Hnz) as (-> & _). cbn [fst]. split; [done|].
    intros [Hp Hlost]. rewrite Hp, Hlost in Hcount. cbn [length] in Hcount. lia.
Qed.

Lemma sigterm_stops_exactly_when_work_is_done_witness :
  exists s,
    main (Scenario.config (Some 5%Q)) LoopExample.topic [LoopExample.busy] = MainRunning s /\
    fst (iteration (Scenario.config (Some 5%Q)) LoopExample.topic
           (Scenario.tick true [(0%nat, Scenario.host_ok)] None 5000000) s)
    = Ok (Return (Some SIGTERM)).
Proof.
  destruct (main (Scenario.config (Some 5%Q)) LoopExample.topic [LoopExample.busy])
    as [s|pub|e pub|pub workers] eqn:Hmain;
    try (exfalso; vm_compute in Hmain; discriminate Hmain).
  exists s. split; [reflexivity|].
  apply (sigterm_stops_exactly_when_work_is_done _ _ _ s
           (Scenario.tick true [(0%nat, Scenario.host_ok)] None 5000000) Hmain
           (or_intror eq_refl)).
  pose proof Hmain as Hv. vm_compute in Hv. injection Hv as <-.
  vm_compute. split; reflexivity.
Defined.

(** ** The arguments of a string option *)

(** An option of the projection that holds a string contributes [-option]
    followed by the words of the string: no argument is empty or holds
    white space, and together they are the string without its white space. *)
Theorem string_option_arguments config fname_in fname_out opt value :
  ODict.wf config ->
  In (opt, OStr value) config ->
  exists before tokens after,
    _get_warp_command config fname_in fname_out
    = Ok ("gdalwarp" :: before ++ ("-" +:+ opt) :: tokens ++ after
            ++ [fname_in; fname_out]) /\
    Forall (fun x => x <> "" /\ spaceless x = true) tokens /\
    flatten tokens = without_spaces value.
Proof.
  intros Hwf Hin. rewrite (get_warp_command_spec config fname_in fname_out Hwf).
  apply in_split in Hin as (c1 & c2 & ->).
  exists (flat_map (fun kv => option_args (fst kv) (snd kv)) c1), (Str.split value),
         (flat_map (fun kv => option_args (fst kv) (snd kv)) c2).
  split; [|apply split_tokens].
  rewrite flat_map_app. cbn [flat_map fst snd option_args].
  by rewrite <- !app_assoc.
Qed.

Lemma string_option_arguments_witness :
  exists before tokens after,
    _get_warp_command
      [("r", OStr "near"); ("te", OStr (" 0 0" +:+ nbsp +:+ " 10 10 "))] "a.tif" "b.tif"
    = Ok ("gdalwarp" :: before ++ "-te" :: tokens ++ after ++ ["a.tif"; "b.tif"]) /\
    flatten tokens = "001010".
Proof.
  destruct (string_option_arguments
              [("r", OStr "near"); ("te", OStr (" 0 0" +:+ nbsp +:+ " 10 10 "))]
              "a.tif" "b.tif" "te" (" 0 0" +:+ nbsp +:+ " 10 10 "))
    as (before & tokens & after & Hcmd & _ & Hflat).
  - solve_wf.
  - right. left. reflexivity.
  - exists before, tokens, after. split; [exact Hcmd|exact Hflat].
Defined.

(** ** An empty publishing topic *)

(** With an empty publishing topic nothing is ever sent: the constructor of
    the message refuses the topic in the worker, whatever has been
    reprojected. *)
Theorem empty_topic_sends_nothing config feeds :
  sends (trace_of (main config "" feeds)) = [].
Proof.
  destruct (main_traced config "" feeds) as (workers & buffer & [Ht _ _ Hpp Hs]).
  destruct (sends (trace_of (main config "" feeds))) as [|m rest] eqn:Hsends; [done|].
  exfalso. assert (Hm : m ∈ omap snd (pops (trace_of (main config "" feeds)))).
  { rewrite <- Hs. by left. }
  apply list_elem_of_omap in Hm as (r & Hr & Hsnd).
  destruct (Hpp r Hr) as (task & Hin & _ & Hans). rewrite Hsnd in Hans.
  destruct Hans as (fname_in & _ & Htopic & _).
  by destruct (Ht task Hin) as [_ Heq].
Qed.

(** ** A message that comes when the loop returns to restart *)

(** The message that the subscriber gives to an iteration which returns to
    restart is lost: the iteration hands nothing to the pool and does not
    count the message as received, and the call of the loop ends there. *)
Theorem message_dropped_at_restart config pub_topic feeds s t m :
  main config pub_topic feeds = MainRunning s ->
  msg t = Some m ->
  fst (iteration config pub_topic t s) = Ok (Return None) ->
  let s' := snd (iteration config pub_topic t s) in
  submits (events s') = submits (events s) /\
  pool s' = [] /\
  latest_message_time s' = latest_message_time s /\
  for_recv config pub_topic [t] s = Returned None (snd (late_signal t s')).
Proof.
  intros Hmain Hmsg Hret s'. pose proof (main_inv _ _ _ _ Hmain) as Hinv.
  pose proof (iteration_ending config pub_topic t s (inv_results _ _ Hinv)) as Hend.
  destruct (checked_spec config t s (inv_results _ _ Hinv)) as [_ Cl Cr _ _ _ Csub _ _].
  destruct (checked_inv config t s Hinv) as [_ Hpend _ _].
  assert (Hrun : for_recv config pub_topic [t] s = Returned None (snd (late_signal t s'))).
  { cbn [for_recv]. subst s'.
    destruct (iteration config pub_topic t s) as [[[|v]|e] s1]; cbn [fst snd] in *;
      congruence. }
  subst s'. inversion Hend as [| |since timeout Hq Hk Hs Hrt Hlt Heq| | |];
    rewrite <- ?Heq in *; cbn [fst snd] in *; try congruence;
    try (match goal with H : _ = iteration _ _ _ _ |- _ => rewrite <- H in Hret end;
         cbn [fst] in Hret; congruence).
  split; [|split; [|split]]; [| | |exact Hrun].
  - unfold restarting. rewrite events_add_event, submits_app. simpl.
    by rewrite app_nil_r.
  - unfold restarting. cbn [pool add_event]. rewrite Hq, Cr in Hpend.
    destruct (pool (checked config t s)); [done|]. cbn [length] in Hpend. lia.
  - exact Cl.
Qed.

Lemma message_dropped_at_restart_witness :
  exists s,
    main RestartExample.config LoopExample.topic [RestartExample.worked] = MainRunning s /\
    msg RestartExample.late_message = Some Scenario.inbound /\
    length (submits (events s)) = 1%nat /\
    length (submits (events (snd (iteration RestartExample.config LoopExample.topic
                                    RestartExample.late_message s)))) = 1%nat.
Proof.
  destruct (main RestartExample.config LoopExample.topic [RestartExample.worked])
    as [s|pub|e pub|pub workers] eqn:Hmain;
    try (exfalso; vm_compute in Hmain; discriminate Hmain).
  exists s. split; [reflexivity|]. split; [reflexivity|].
  assert (Hone : length (submits (events s)) = 1%nat).
  { pose proof Hmain as Hv. vm_compute in Hv. injection Hv as <-. reflexivity. }
  split; [exact Hone|].
  destruct (message_dropped_at_restart _ _ _ s RestartExample.late_message
              Scenario.inbound Hmain eq_refl) as (-> & _).
  - pose proof Hmain as Hv. vm_compute in Hv. injection Hv as <-. vm_compute. reflexivity.
  - exact Hone.
Defined.
